(** * s2.py: the orbit of S2 around a Kerr black hole, and light rays
      grazing its periapsis

    A shallow embedding of the script [s2.py].  The script computes with
    numpy float arrays; here a number is a real ([R]), an array of fixed
    shape is a tuple, a trajectory is a list of rows, and what Python does
    besides computing (printing, raising, [try]/[except]) lives in the
    monad [py].  The lines on which a property asks for an exact value are
    embedded a second time over binary64 floats, in the module [Binary64],
    to tell what holds over the reals from what the script computes. *)

From Stdlib Require Import Reals Lra Lia List ZArith Bool.
From Stdlib Require Floats.PrimFloat.
Import ListNotations.
Local Open Scope R_scope.
Set Warnings "-abstract-large-number".
Set Warnings "-inexact-float".

(** ** Python effects: standard output and exceptions *)

Module Py.

Definition vec3 : Type := R * R * R.
Definition mat3 : Type := vec3 * vec3 * vec3.

Inductive exn : Type :=
| LinAlgError                  (* numpy.linalg.LinAlgError("Singular matrix") *)
| ValueError                   (* reduction of an array of size zero *)
| IndexError (i n : nat).      (* index i is out of bounds for size n *)

(** One call of [print]. *)
Inductive line : Type :=
| PrintMat (m : mat3)          (* print(mat) *)
| PrintPrecession (v : R)      (* print("Precession per Orbit:", v) *)
| PrintTheory (v : R)          (* print("Theoretical Value ...", v) *)
| PrintClosest (v : R)         (* print('Closest Ray: ', v) *)
| PrintCell (i j : nat).       (* print(i, j) *)

(** A computation: the lines it printed, and how it ended. *)
Definition py (A : Type) : Type := list line * (exn + A).

Definition ret {A : Type} (x : A) : py A := ([], inr x).

Definition bind {A B : Type} (m : py A) (k : A -> py B) : py B :=
  match m with
  | (out, inl e) => (out, inl e)
  | (out, inr x) => let '(out', r) := k x in (out ++ out', r)
  end.

Definition print (l : line) : py unit := ([l], inr tt).

Definition raise {A : Type} (e : exn) : py A := ([], inl e).

(** [try: body / except: handler] (a bare [except] catches everything). *)
Definition try_except {A : Type} (body : py A) (handler : exn -> py A) : py A :=
  match body with
  | (out, inl e) => let '(out', r) := handler e in (out ++ out', r)
  | (out, inr x) => (out, inr x)
  end.

Definition stdout {A : Type} (m : py A) : list line := fst m.
Definition outcome {A : Type} (m : py A) : exn + A := snd m.

(** A line other than 'Closest Ray'. *)
Definition other_line (l : line) : Prop := forall v : R, l <> PrintClosest v.

(** [for i in l: s = body(i, s)] *)
Fixpoint for_each {I S : Type} (l : list I) (body : I -> S -> py S) (s : S)
  : py S :=
  match l with
  | [] => ret s
  | i :: l' => bind (body i s) (for_each l' body)
  end.

Definition range (n : nat) : list nat := seq 0 n.

End Py.
Import Py.

Declare Scope py_scope.
Delimit Scope py_scope with py.
Notation "x <- m ;; k" := (bind m (fun x => k))
  (at level 61, m at next level, right associativity) : py_scope.
Notation "m ;; k" := (bind m (fun _ => k))
  (at level 61, right associativity) : py_scope.
Local Open Scope py_scope.

(** ** numpy on small fixed shapes *)

Module Np.

Definition vec4 : Type := R * R * R * R.
Definition mat4 : Type := vec4 * vec4 * vec4 * vec4.
Definition vec5 : Type := R * R * R * R * R.
Definition vec6 : Type := R * R * R * R * R * R.

(** [u @ v] on two vectors *)
Definition dot3 (u v : vec3) : R :=
  let '(u0, u1, u2) := u in
  let '(v0, v1, v2) := v in
  u0 * v0 + u1 * v1 + u2 * v2.

Definition dot4 (u v : vec4) : R :=
  let '(u0, u1, u2, u3) := u in
  let '(v0, v1, v2, v3) := v in
  u0 * v0 + u1 * v1 + u2 * v2 + u3 * v3.

(** [m @ v] *)
Definition matvec3 (m : mat3) (v : vec3) : vec3 :=
  let '(r0, r1, r2) := m in (dot3 r0 v, dot3 r1 v, dot3 r2 v).

Definition matvec4 (m : mat4) (v : vec4) : vec4 :=
  let '(r0, r1, r2, r3) := m in (dot4 r0 v, dot4 r1 v, dot4 r2 v, dot4 r3 v).

(** [m.transpose()] *)
Definition transpose (m : mat3) : mat3 :=
  let '((a00, a01, a02), (a10, a11, a12), (a20, a21, a22)) := m in
  ((a00, a10, a20), (a01, a11, a21), (a02, a12, a22)).

(** [m @ n] *)
Definition matmul (m n : mat3) : mat3 :=
  let '(c0, c1, c2) := transpose n in
  let '(r0, r1, r2) := m in
  ((dot3 r0 c0, dot3 r0 c1, dot3 r0 c2),
   (dot3 r1 c0, dot3 r1 c1, dot3 r1 c2),
   (dot3 r2 c0, dot3 r2 c1, dot3 r2 c2)).

Definition sub3 (u v : vec3) : vec3 :=
  let '(u0, u1, u2) := u in
  let '(v0, v1, v2) := v in
  (u0 - v0, u1 - v1, u2 - v2).

Definition scale3 (k : R) (u : vec3) : vec3 :=
  let '(u0, u1, u2) := u in (k * u0, k * u1, k * u2).

Definition scale4 (k : R) (u : vec4) : vec4 :=
  let '(u0, u1, u2, u3) := u in (k * u0, k * u1, k * u2, k * u3).

(** [np.linalg.norm(u)] *)
Definition norm (u : vec3) : R := sqrt (dot3 u u).

Definition det3 (m : mat3) : R :=
  let '((a00, a01, a02), (a10, a11, a12), (a20, a21, a22)) := m in
  a00 * (a11 * a22 - a12 * a21)
  - a01 * (a10 * a22 - a12 * a20)
  + a02 * (a10 * a21 - a11 * a20).

(** The solution of [m u = v] by Cramer's rule. *)
Definition cramer (m : mat3) (v : vec3) : vec3 :=
  let '((a00, a01, a02), (a10, a11, a12), (a20, a21, a22)) := m in
  let '(v0, v1, v2) := v in
  (det3 ((v0, a01, a02), (v1, a11, a12), (v2, a21, a22)) / det3 m,
   det3 ((a00, v0, a02), (a10, v1, a12), (a20, v2, a22)) / det3 m,
   det3 ((a00, a01, v0), (a10, a11, v1), (a20, a21, v2)) / det3 m).

(** [np.linalg.solve(m, v)] for a 3x3 system: the solution, or
    [LinAlgError] when the matrix is singular. *)
Definition solve (m : mat3) (v : vec3) : py vec3 :=
  if Req_dec_T (det3 m) 0 then raise LinAlgError else ret (cramer m v).

(** [np.arctan2(y, x)]: the angle of the point (x, y), in (-pi, pi]. *)
Definition arctan2 (y x : R) : R :=
  if Rlt_dec 0 x then atan (y / x)
  else if Rlt_dec x 0 then
    if Rle_dec 0 y then atan (y / x) + PI else atan (y / x) - PI
  else if Rlt_dec 0 y then PI / 2
  else if Rlt_dec y 0 then - (PI / 2)
  else 0.

(** [np.linspace(start, stop, num)] *)
Definition linspace (start stop : R) (num : nat) : list R :=
  map (fun i => start + INR i * ((stop - start) / INR (num - 1))) (seq 0 num).

(** [np.zeros((rows, cols))] *)
Definition zeros (rows cols : nat) : list (list R) :=
  repeat (repeat 0 cols) rows.

(** [np.min(g)] (also spelt [np.amin]) of a two-dimensional array *)
Definition amin (g : list (list R)) : py R :=
  match concat g with
  | [] => raise ValueError
  | v :: vs => ret (fold_left Rmin vs v)
  end.

(** [l[i]] *)
Definition item {A : Type} (l : list A) (i : nat) : py A :=
  match nth_error l i with
  | Some x => ret x
  | None => raise (IndexError i (length l))
  end.

(** [l[idx]] for an array of indices [idx] *)
Fixpoint take {A : Type} (l : list A) (idx : list nat) : py (list A) :=
  match idx with
  | [] => ret []
  | i :: idx' => x <- item l i ;; xs <- take l idx' ;; ret (x :: xs)
  end.

Fixpoint update {A : Type} (l : list A) (i : nat) (v : A) : list A :=
  match l, i with
  | [], _ => []
  | _ :: l', O => v :: l'
  | x :: l', S i' => x :: update l' i' v
  end.

(** [l[i] = v] *)
Definition setitem {A : Type} (l : list A) (i : nat) (v : A) : py (list A) :=
  if (i <? length l)%nat then ret (update l i v)
  else raise (IndexError i (length l)).

(** [g[j, i] = v] *)
Definition setitem2 (g : list (list R)) (j i : nat) (v : R)
  : py (list (list R)) :=
  row <- item g j ;;
  row' <- setitem row i v ;;
  setitem g j row'.

End Np.
Import Np.

(** ** Configuration: the constants at the head of the script *)

Module Config.

Definition nt : nat := 100000.
Definition T : R := 80000000.          (* units of 1/2 r_s / c *)
Definition a : R := 0.99.              (* black hole angular momentum *)
Definition M : R := 4.28e6.            (* solar masses *)
Definition R_0 : R := 8.32.            (* kpc *)

Definition ecc : R := 0.8839.
Definition incl : R := 134.18 * (PI / 180).
Definition long_asc : R := 226.94 * (PI / 180).
Definition arg_peri : R := 65.51 * (PI / 180).

Definition YEAR : R := 86400 * 365.25.
Definition SGP_SUN : R := 1.32712440018e20.
Definition SOL : R := 299792458.
Definition AU : R := 149597870700.
Definition half_rs : R := SGP_SUN * M / (SOL * SOL).

Definition sma : R := 0.1255 * (1000 * R_0 * AU / half_rs).
Definition period : R := 16.0 * (YEAR * SOL / half_rs).

(** orientation of the spin in the observer frame *)
Definition spin_phi : R := 0.
Definition spin_theta : R := 0.

(** density of the grid scan *)
Definition nx : nat := 25.
Definition ny : nat := 25.

End Config.

(** ** Frames: orbital plane, observer, black hole *)

Module Frames.
Import Config.

Definition R_arg : mat3 :=
  ((cos arg_peri, - sin arg_peri, 0),
   (sin arg_peri, cos arg_peri, 0),
   (0, 0, 1)).
Definition R_incl : mat3 :=
  ((1, 0, 0),
   (0, cos incl, - sin incl),
   (0, sin incl, cos incl)).
Definition R_long : mat3 :=
  ((cos long_asc, - sin long_asc, 0),
   (sin long_asc, cos long_asc, 0),
   (0, 0, 1)).

Definition obs_from_orb : mat3 := matmul (matmul R_long R_incl) R_arg.
Definition orb_from_obs : mat3 := transpose obs_from_orb.

Definition R_spin_phi : mat3 :=
  ((cos spin_phi, sin spin_phi, 0),
   (- sin spin_phi, cos spin_phi, 0),
   (0, 0, 1)).
Definition R_spin_theta : mat3 :=
  ((- cos spin_theta, 0, sin spin_theta),
   (0, 1, 0),
   (- sin spin_theta, 0, - cos spin_theta)).

(** the black-hole frame has the spin along -z *)
Definition bh_from_obs : mat3 := matmul R_spin_theta R_spin_phi.
Definition obs_from_bh : mat3 := transpose bh_from_obs.

(** position and velocity of the star at apoapsis *)
Definition ecc_anom : R := PI.
Definition x_orb : vec3 :=
  scale3 sma (cos ecc_anom - ecc, sqrt (1 - ecc * ecc) * sin ecc_anom, 0).
Definition v_orb : vec3 :=
  scale3 (2 * PI * sma * sma / (norm x_orb * period))
         (- sin ecc_anom, cos ecc_anom * sqrt (1 - ecc * ecc), 0).

Definition x_bh : vec3 := matvec3 (matmul bh_from_obs obs_from_orb) x_orb.
Definition v_bh : vec3 := matvec3 (matmul bh_from_obs obs_from_orb) v_orb.

End Frames.
Import Frames.

(** ** The Kerr metric *)

Module Kerr.

Definition Sigma (r theta a : R) : R := r * r + a * a * (cos theta * cos theta).
Definition Delta (r a : R) : R := r * r - 2 * r + a * a.

(** Modelled from the spec: the metric functions of [deriv_funcs_massive]
    and [deriv_funcs_light] are not among the sources.  The covariant Kerr
    metric in Boyer-Lindquist coordinates (t, r, theta, phi), mass 1: the
    only off-diagonal component couples t and phi. *)
Definition kerr (r theta a : R) : mat4 :=
  let s2 := sin theta * sin theta in
  let g_tphi := - (2 * a * r * s2 / Sigma r theta a) in
  ((- (1 - 2 * r / Sigma r theta a), 0, 0, g_tphi),
   (0, Sigma r theta a / Delta r a, 0, 0),
   (0, 0, Sigma r theta a, 0),
   (g_tphi, 0, 0,
    (r * r + a * a + 2 * a * a * r * s2 / Sigma r theta a) * s2)).

(** Modelled from the spec: [deriv_funcs_massive.metric], on a massive
    state [t, r, theta, phi, p_r, p_theta]; only r and theta are read. *)
Definition metric (state : vec6) (a : R) : mat4 :=
  let '(_, r, theta, _, _, _) := state in kerr r theta a.

(** Modelled from the spec: [deriv_funcs_light.metric], on a ray state
    [r, theta, phi, p_r, p_theta]; only r and theta are read. *)
Definition metric_l (state : vec5) (a : R) : mat4 :=
  let '(r, theta, _, _, _) := state in kerr r theta a.

End Kerr.

(** ** Boyer-Lindquist and Cartesian coordinates in the black-hole frame *)

(** The conversion the script applies to every row of an integrated
    trajectory ([orbit_xyz], [ray_xyz]). *)
Definition bl_to_xyz (a : R) (p : vec3) : vec3 :=
  let '(r, theta, phi) := p in
  (sqrt (r * r + a * a) * sin theta * cos phi,
   sqrt (r * r + a * a) * sin theta * sin phi,
   r * cos theta).

(** The matrix [mat] of the script: the derivative of (x, y, z) in
    (r, theta, phi), which turns a Cartesian direction into a coordinate
    direction.  The script writes it out twice, for the star and for a ray. *)
Definition direction_matrix (a : R) (xyz0 pos0 : vec3) : mat3 :=
  let '(x0, y0, z0) := xyz0 in
  let '(r0, theta0, _) := pos0 in
  ((r0 * x0 / (r0 * r0 + a * a), - x0 * tan (theta0 - PI / 2), - y0),
   (r0 * y0 / (r0 * r0 + a * a), - y0 * tan (theta0 - PI / 2), x0),
   (z0 / r0, - r0 * sin theta0, 0)).


(** ** The star: initial conditions of the massive geodesic *)

Module Star.
Section InitialConditions.

(** [deriv_funcs_massive.metric] *)
Variable metric : vec6 -> R -> mat4.
Variable a : R.
(** position and velocity in the black-hole frame *)
Variables x_bh v_bh : vec3.

Definition x0 : R := let '(x, _, _) := x_bh in x.
Definition y0 : R := let '(_, y, _) := x_bh in y.
Definition z0 : R := let '(_, _, z) := x_bh in z.

(** the Boyer-Lindquist position *)
Definition phi0 : R := arctan2 y0 x0.
Definition a_xyz : R := a * a - x0 * x0 - y0 * y0 - z0 * z0.
Definition r0 : R :=
  sqrt (- 0.5 * a_xyz + 0.5 * sqrt (a_xyz * a_xyz + 4 * a * a * z0 * z0)).
Definition theta0 : R := acos (z0 / r0).
Definition t0 : R := 0.

Definition mat : mat3 := direction_matrix a (x0, y0, z0) (r0, theta0, phi0).

(** d/dt of (t, r, theta, phi) *)
Definition _u_dt : py vec4 :=
  sol <- solve mat v_bh ;;
  let '(u1, u2, u3) := sol in ret (1, u1, u2, u3).

(** change to the proper-time derivative *)
Definition metric0 : mat4 := metric (0, r0, theta0, 0, 0, 0) a.
Definition dt_dtau (_u_dt : vec4) : R :=
  1 / sqrt (- dot4 (matvec4 metric0 _u_dt) _u_dt).
Definition _p (_u_dt : vec4) : vec4 := scale4 (dt_dtau _u_dt) _u_dt.

(** the covariant 4-momentum and the constants of motion *)
Definition p_cov (_u_dt : vec4) : vec4 := matvec4 metric0 (_p _u_dt).
Definition E (_u_dt : vec4) : R := let '(p_t, _, _, _) := p_cov _u_dt in - p_t.
Definition p_r0 (_u_dt : vec4) : R := let '(_, p_r, _, _) := p_cov _u_dt in p_r.
Definition p_theta0 (_u_dt : vec4) : R :=
  let '(_, _, p_theta, _) := p_cov _u_dt in p_theta.
Definition p_phi (_u_dt : vec4) : R := let '(_, _, _, p) := p_cov _u_dt in p.
Definition b (_u_dt : vec4) : R := p_phi _u_dt.

Definition orbit0 : py vec6 :=
  u <- _u_dt ;;
  ret (t0, r0, theta0, phi0, p_r0 u, p_theta0 u).

End InitialConditions.
End Star.

(** Modelled from the spec: [utils.xyz_to_bl], which [minimum_distance]
    calls, is not among the sources; it is taken to be the conversion the
    script writes out itself for the star ([phi0], [a_xyz], [r0], [theta0]). *)
Definition xyz_to_bl (xyz : vec3) (a : R) : vec3 :=
  (Star.r0 a xyz, Star.theta0 a xyz, Star.phi0 xyz).

(** ** The star: analysis of the integrated orbit *)

Module Orbit.
Section Analysis.

Variable a : R.
(** [utils.maxima], [utils.minima]: the indices of the local extrema *)
Variables maxima minima : list R -> list nat.
(** the array [odeint] returns: a row [t, r, theta, phi, p_r, p_theta]
    for each point of the grid [zeta] *)
Variable orbit : list vec6.

Definition orbit_xyz : list vec3 :=
  map (fun row : vec6 =>
         let '(_, r, theta, phi, _, _) := row in bl_to_xyz a (r, theta, phi))
      orbit.

(** back into the observer frame and the orbital plane *)
Definition orbit_obs : list vec3 := map (matvec3 obs_from_bh) orbit_xyz.
Definition orbit_orb : list vec3 := map (matvec3 orb_from_obs) orbit_obs.

Definition t : list R :=
  map (fun row : vec6 => let '(t, _, _, _, _, _) := row in t) orbit.
Definition pr : list R :=
  map (fun row : vec6 => let '(_, _, _, _, p_r, _) := row in p_r) orbit.

Definition imaxs : list nat := maxima pr.
Definition imins : list nat := minima pr.

Definition phase : list R :=
  map (fun p : vec3 => let '(x, y, _) := p in arctan2 y x) orbit_orb.

(** column 0 of [orbit_orb] *)
Definition orbit_orb_x : list R :=
  map (fun p : vec3 => let '(x, _, _) := p in x) orbit_orb.

(** [t[imaxs][1] - t[imaxs][0]] *)
Definition simul_period : py R :=
  ts <- take t imaxs ;; t1 <- item ts 1 ;;
  ts' <- take t imaxs ;; t0 <- item ts' 0 ;;
  ret (t1 - t0).

(** [(orbit_orb[imins, 0][0] - orbit_orb[imaxs, 0][0])/2] *)
Definition simul_sma : py R :=
  xs <- take orbit_orb_x imins ;; x_min <- item xs 0 ;;
  xs' <- take orbit_orb_x imaxs ;; x_max <- item xs' 0 ;;
  ret ((x_min - x_max) / 2).

(** [phase[imaxs][1] + np.pi] *)
Definition deltaphase : py R :=
  ps <- take phase imaxs ;; p1 <- item ps 1 ;;
  ret (p1 + PI).

Definition thdeltaphase : R :=
  6 * PI / (Config.sma * (1 - Config.ecc * Config.ecc)).

(** the analysis as the script runs it *)
Definition analysis : py (R * R * R) :=
  period <- simul_period ;;
  sma <- simul_sma ;;
  dphase <- deltaphase ;;
  print (PrintPrecession dphase) ;;
  print (PrintTheory thdeltaphase) ;;
  ret (period, sma, dphase).

(** [orbit_obs[imins][0]] *)
Definition peri_obs : py vec3 :=
  rows <- take orbit_obs imins ;; item rows 0.

End Analysis.
End Orbit.

(** ** Detection of extrema *)

Module Extrema.

Definition rises (x y : R) : bool := if Rlt_dec x y then true else false.

(** Modelled from the spec: [utils.maxima] and [utils.minima] are not among
    the sources.  Discrete detection of an extremum: the indices where the
    finite difference changes sign, from rising to falling for a maximum
    ([up]), from falling to rising for a minimum. *)
Fixpoint turning (up : bool) (i : nat) (l : list R) : list nat :=
  match l with
  | [] => []
  | x :: tl =>
      match tl with
      | y :: z :: _ =>
          if (if up then rises x y && rises z y else rises y x && rises y z)
          then S i :: turning up (S i) tl
          else turning up (S i) tl
      | _ => []
      end
  end.

(** Modelled from the spec: [utils.maxima]. *)
Definition maxima (l : list R) : list nat := turning true 0 l.

(** Modelled from the spec: [utils.minima]. *)
Definition minima (l : list R) : list nat := turning false 0 l.

End Extrema.

(** ** Rays: the distance of closest approach *)

Module Ray.
Section Shooting.

(** [deriv_funcs_light.metric] *)
Variable metric_l : vec5 -> R -> mat4.
(** [spi.odeint(deriv_l, y0, grid, (a, b), atol = 1e-10)]: row [i] of the
    array it returns, which has a row for each point of [grid] *)
Variable odeint_row : vec5 -> list R -> R -> R -> nat -> vec5.

Definition odeint (y0 : vec5) (grid : list R) (a b : R) : list vec5 :=
  map (odeint_row y0 grid a b) (seq 0 (length grid)).

(** some large number compared to r_s/2 *)
Definition z_inf : R := 100000.

(** initial position in the black-hole frame, Cartesian and Boyer-Lindquist *)
Definition xyz0 (x y : R) : vec3 := matvec3 bh_from_obs (x, y, z_inf).
Definition pos0 (x y a : R) : vec3 := xyz_to_bl (xyz0 x y) a.

(** rays coming to Earth from the star *)
Definition _v0 : vec3 := matvec3 bh_from_obs (0, 0, 1).

Definition mat (x y a : R) : mat3 := direction_matrix a (xyz0 x y) (pos0 x y a).

(** [np.concatenate((pos0, np.zeros(2)))] *)
Definition ray0_init (x y a : R) : vec5 :=
  let '(r0, theta0, phi0) := pos0 x y a in (r0, theta0, phi0, 0, 0).

Definition metric0 (x y a : R) : mat4 := metric_l (ray0_init x y a) a.

(** [_p = np.zeros(4)], then the [try] block that fills [_p[1:4]] *)
Definition solve_direction (x y a : R) : py vec4 :=
  let _p : vec4 := (0, 0, 0, 0) in
  try_except
    (sol <- solve (mat x y a) _v0 ;;
     let '(p1, p2, p3) := sol in
     let '(p0, _, _, _) := _p in ret (p0, p1, p2, p3))
    (fun _ => print (PrintMat (mat x y a)) ;; ret _p).

(** [_p[0] = (-1 - _p[2] * metric0[0, 2])/metric0[0, 0]] *)
Definition set_energy (metric0 : mat4) (_p : vec4) : vec4 :=
  let '(_, p1, p2, p3) := _p in
  let '((g00, _, g02, _), _, _, _) := metric0 in
  ((-1 - p2 * g02) / g00, p1, p2, p3).

Definition _p_cov (x y a : R) (_p : vec4) : vec4 :=
  matvec4 (metric0 x y a) (set_energy (metric0 x y a) _p).

(** [ray0[3:5] = _p_cov[1:3]] *)
Definition ray0 (x y a : R) (_p : vec4) : vec5 :=
  let '(r0, theta0, phi0, _, _) := ray0_init x y a in
  let '(_, p_r, p_theta, _) := _p_cov x y a _p in
  (r0, theta0, phi0, p_r, p_theta).

Definition b (x y a : R) (_p : vec4) : R :=
  let '(_, _, _, p_phi) := _p_cov x y a _p in p_phi.

(** the conserved energy of the ray, E = -p_t (the script has no name
    for it) *)
Definition E (x y a : R) (_p : vec4) : R :=
  let '(p_t, _, _, _) := _p_cov x y a _p in - p_t.

Definition _zeta (nt : nat) : list R := linspace 0 (- 1.2 * z_inf) (nt + 1).

Definition ray (x y a : R) (nt : nat) (_p : vec4) : list vec5 :=
  odeint (ray0 x y a _p) (_zeta nt) a (b x y a _p).

Definition ray_xyz (x y a : R) (nt : nat) (_p : vec4) : list vec3 :=
  map (fun row : vec5 =>
         let '(r, theta, phi, _, _) := row in bl_to_xyz a (r, theta, phi))
      (ray x y a nt _p).

(** the loop over the rows of [ray_xyz], and the final [np.sqrt] *)
Definition closest (pos : vec3) (ray_xyz : list vec3) : R :=
  let dist_sqr_min :=
    fold_left
      (fun dist_sqr_min row =>
         let ray_obs := matvec3 obs_from_bh row in
         let disp := sub3 ray_obs pos in
         let dist_sqr := dot3 disp disp in
         if Rlt_dec dist_sqr dist_sqr_min then dist_sqr else dist_sqr_min)
      ray_xyz
      (2 * z_inf * z_inf)          (* further than possible start *)
  in
  sqrt dist_sqr_min.

(** minimum distance to [pos] from the ray originating at (x, y, infinity) *)
Definition minimum_distance (x y : R) (pos : vec3) (a : R) (nt : nat) : py R :=
  _p <- solve_direction x y a ;;
  ret (closest pos (ray_xyz x y a nt _p)).

(** *** The scan of the grid of sky offsets around the periapsis *)

Variable peri_obs : vec3.

Definition xspace : list R := linspace (-2231) (-2229) Config.nx.
Definition yspace : list R := linspace 387 389 Config.ny.

(** the body of the inner loop *)
Definition cell (i j : nat) (min_dist : list (list R)) : py (list (list R)) :=
  _x <- item xspace i ;;
  _y <- item yspace j ;;
  d <- minimum_distance _x _y peri_obs Config.a 10000 ;;
  min_dist' <- setitem2 min_dist j i d ;;
  print (PrintCell i j) ;;
  ret min_dist'.

Definition scan : py (list (list R)) :=
  let min_dist := zeros Config.ny Config.nx in
  closest_ray <- amin min_dist ;;
  print (PrintClosest closest_ray) ;;
  for_each (range Config.nx)
    (fun i min_dist =>
       for_each (range Config.nx) (fun j min_dist => cell i j min_dist) min_dist)
    min_dist.

End Shooting.
End Ray.

(** ** The grid scan, for any density *)

Module Grid.
Section Scan.

Variable metric_l : vec5 -> R -> mat4.
Variable odeint_row : vec5 -> list R -> R -> R -> nat -> vec5.
Variable peri_obs : vec3.
(** "takes a long time; adjust nx, ny to speed up" *)
Variables nx ny : nat.

Definition xspace : list R := linspace (-2231) (-2229) nx.
Definition yspace : list R := linspace 387 389 ny.

Definition cell (i j : nat) (min_dist : list (list R)) : py (list (list R)) :=
  _x <- item xspace i ;;
  _y <- item yspace j ;;
  d <- Ray.minimum_distance metric_l odeint_row _x _y peri_obs Config.a 10000 ;;
  min_dist' <- setitem2 min_dist j i d ;;
  print (PrintCell i j) ;;
  ret min_dist'.

Definition scan : py (list (list R)) :=
  let min_dist := zeros ny nx in
  closest_ray <- amin min_dist ;;
  print (PrintClosest closest_ray) ;;
  for_each (range nx)
    (fun i min_dist =>
       for_each (range nx) (fun j min_dist => cell i j min_dist) min_dist)
    min_dist.

End Scan.

(** the grid [g] after [g[j, i] = v], when the indices are in range *)
Definition store (g : list (list R)) (i j : nat) (v : R) : list (list R) :=
  update g j (update (nth j g []) i v).

(** [g[j, i]] *)
Definition at_ (g : list (list R)) (i j : nat) : R := nth i (nth j g []) 0.

(** a grid of [ny] rows of [nx] columns *)
Definition shaped (nx ny : nat) (g : list (list R)) : Prop :=
  length g = ny /\ Forall (fun row => length row = nx) g.

(** the value a computation returns ([d] if it raises) *)
Definition returned {A : Type} (m : py A) (d : A) : A :=
  match outcome m with
  | inr x => x
  | inl _ => d
  end.

End Grid.

(** ** Matrices undone by their transpose *)

Definition undone_by_transpose (m : mat3) : Prop :=
  forall v : vec3,
    matvec3 (transpose m) (matvec3 m v) = v /\
    matvec3 m (matvec3 (transpose m) v) = v.

(** ** Sample inputs *)

Module Sample.

(** A row of a trajectory on the polar axis. *)
Definition on_axis (t r p_r : R) : vec6 := (t, r, 0, 0, p_r, 0).

(** A trajectory with one maximum (row 1) and one minimum (row 3) of p_r. *)
Definition one_turn : list vec6 :=
  [on_axis 0 3 0; on_axis 1 2 1; on_axis 2 1.5 0; on_axis 3 1 (-1);
   on_axis 4 1.5 0].

(** The same, continued to a second maximum (row 5). *)
Definition two_turns : list vec6 :=
  one_turn ++ [on_axis 5 2 1; on_axis 6 3 0].

(** What [odeint] returns for a grid of one point: the initial state. *)
Definition hold (y0 : vec5) (grid : list R) (a b : R) (i : nat) : vec5 := y0.

(** A row of a trajectory in the equatorial plane of the hole. *)
Definition equatorial (t r phi p_r : R) : vec6 := (t, r, PI / 2, phi, p_r, 0).

(** A bound orbit in the equatorial plane, from a periapsis (r = 9.79) over
    an apoapsis (r = 49) to the next apoapsis, the periapsis having advanced
    by 0.1: p_r has maxima on the way out (rows 1 and 5) and a minimum on
    the way in (row 3). *)
Definition orbiting : list vec6 :=
  [equatorial 0 9.79 (- (PI / 2)) 0;
   equatorial 55 16.32 0 0.165;
   equatorial 501 49 (PI / 2) 0;
   equatorial 947 16.32 PI (-0.165);
   equatorial 1002 9.79 (3 * (PI / 2) + 0.05) 0;
   equatorial 1057 16.32 (2 * PI + 0.1) 0.165;
   equatorial 1502 49 (5 * (PI / 2) + 0.1) 0].

(** The same orbit without the row on the way in: p_r is 0 at the apoapsis
    and at the next periapsis, so that it has two maxima (rows 1 and 4)
    and, between them, a plateau where no minimum is detected. *)
Definition plateau : list vec6 :=
  [equatorial 0 9.79 (- (PI / 2)) 0;
   equatorial 55 16.32 0 0.165;
   equatorial 501 49 (PI / 2) 0;
   equatorial 1002 9.79 (3 * (PI / 2) + 0.05) 0;
   equatorial 1057 16.32 (2 * PI + 0.1) 0.165;
   equatorial 1502 49 (5 * (PI / 2) + 0.1) 0].

End Sample.

(** ** The script's arithmetic in binary64 *)

(** numpy computes in IEEE 754 binary64.  The lines of the script on which
    an exact value is asked for are embedded here once more, operation by
    operation and in Python's order of evaluation, over the primitive
    binary64 floats: every [+], [-], [*], [/] and [sqrt] rounds to nearest,
    as numpy's do.  [np.sin] and [np.cos] are left to the caller, who passes
    their values.  A product [m @ v] is summed from left to right; the
    inputs used below have a single non-zero product in every sum, so that
    neither the order of the additions nor a fused multiply-add changes a
    result. *)
Module Binary64.
Import PrimFloat.
Local Open Scope float_scope.

Definition vec3 : Type := float * float * float.
Definition vec4 : Type := float * float * float * float.
Definition mat4 : Type := vec4 * vec4 * vec4 * vec4.

Definition dot4 (u v : vec4) : float :=
  let '(u0, u1, u2, u3) := u in
  let '(v0, v1, v2, v3) := v in
  u0 * v0 + u1 * v1 + u2 * v2 + u3 * v3.

Definition matvec4 (m : mat4) (v : vec4) : vec4 :=
  let '(r0, r1, r2, r3) := m in (dot4 r0 v, dot4 r1 v, dot4 r2 v, dot4 r3 v).

Definition neg4 (u : vec4) : vec4 :=
  let '(u0, u1, u2, u3) := u in (- u0, - u1, - u2, - u3).

Definition scale4 (k : float) (u : vec4) : vec4 :=
  let '(u0, u1, u2, u3) := u in (k * u0, k * u1, k * u2, k * u3).

(** *** The star: from Boyer-Lindquist to Cartesian coordinates and back *)

(** a row of [orbit_xyz], from r and the sines and cosines of theta, phi *)
Definition orbit_xyz (a r sin_theta cos_theta sin_phi cos_phi : float) : vec3 :=
  (sqrt (r * r + a * a) * sin_theta * cos_phi,
   sqrt (r * r + a * a) * sin_theta * sin_phi,
   r * cos_theta).

Definition a_xyz (a : float) (x_bh : vec3) : float :=
  let '(x0, y0, z0) := x_bh in a * a - x0 * x0 - y0 * y0 - z0 * z0.

Definition r0 (a : float) (x_bh : vec3) : float :=
  let '(_, _, z0) := x_bh in
  sqrt (- 0.5 * a_xyz a x_bh
        + 0.5 * sqrt (a_xyz a x_bh * a_xyz a x_bh + 4 * a * a * z0 * z0)).

(** *** The star: the change to the proper-time derivative *)

(** [1/np.sqrt(-(metric0 @ _u_dt) @ _u_dt)] *)
Definition dt_dtau (metric0 : mat4) (_u_dt : vec4) : float :=
  1 / sqrt (dot4 (neg4 (matvec4 metric0 _u_dt)) _u_dt).

Definition _p (metric0 : mat4) (_u_dt : vec4) : vec4 :=
  scale4 (dt_dtau metric0 _u_dt) _u_dt.

Definition p_cov (metric0 : mat4) (_u_dt : vec4) : vec4 :=
  matvec4 metric0 (_p metric0 _u_dt).

(** *** Rays: the energy at launch *)

(** [_p[0] = (-1 - _p[2] * metric0[0, 2])/metric0[0, 0]] *)
Definition set_energy (metric0 : mat4) (_p : vec4) : vec4 :=
  let '(_, p1, p2, p3) := _p in
  let '((g00, _, g02, _), _, _, _) := metric0 in
  ((-1 - p2 * g02) / g00, p1, p2, p3).

Definition _p_cov (metric0 : mat4) (_p : vec4) : vec4 :=
  matvec4 metric0 (set_energy metric0 _p).

(** E = -p_t *)
Definition E (metric0 : mat4) (_p : vec4) : float :=
  let '(p_t, _, _, _) := _p_cov metric0 _p in - p_t.

End Binary64.

(** * Properties *)

(** Equality of tuples, component by component. *)
Ltac tuple_eq := repeat (apply (f_equal2 (@pair _ _))).

Lemma zero_div (x y : R) : x = 0 -> x / y = 0.
Proof. intros ->. unfold Rdiv. apply Rmult_0_l. Qed.

(** ** Facts on angles *)

Lemma sin_cos_sqr (t : R) : sin t * sin t + cos t * cos t = 1.
Proof. generalize (sin2_cos2 t). unfold Rsqr. tauto. Qed.


Lemma inv_sqrt_1_plus_sqr (s c : R) :
  0 < c -> s * s + c * c = 1 -> sqrt (1 + (s / c) * (s / c)) = / c.
Proof.
  intros Hc H.
  apply sqrt_lem_1.
  - nra.
  - left. now apply Rinv_0_lt_compat.
  - replace (/ c * / c) with ((s * s + c * c) / (c * c))
      by (rewrite H; field; lra).
    field. lra.
Qed.

(** [arctan2] recovers the direction (c, s) of the point (k c, k s). *)
Lemma arctan2_direction (k s c : R) :
  0 < k -> s * s + c * c = 1 ->
  cos (arctan2 (k * s) (k * c)) = c /\
  sin (arctan2 (k * s) (k * c)) = s.
Proof.
  intros Hk Hsc.
  unfold arctan2.
  destruct (Rlt_dec 0 (k * c)) as [Hx | Hx].
  - assert (Hc : 0 < c) by nra.
    replace (k * s / (k * c)) with (s / c) by (field; lra).
    rewrite cos_atan, sin_atan. unfold Rsqr.
    rewrite (inv_sqrt_1_plus_sqr s c Hc Hsc).
    split; field; lra.
  - destruct (Rlt_dec (k * c) 0) as [Hx' | Hx'].
    + assert (Hc : 0 < - c) by nra.
      assert (Hsc' : - s * - s + - c * - c = 1) by lra.
      assert (E : k * s / (k * c) = - s / - c) by (field; lra).
      pose proof (inv_sqrt_1_plus_sqr (- s) (- c) Hc Hsc') as Hq.
      destruct (Rle_dec 0 (k * s)).
      * rewrite neg_cos, neg_sin, E, cos_atan, sin_atan. unfold Rsqr.
        rewrite Hq.
        split; field; lra.
      * replace (atan (k * s / (k * c)) - PI)
          with (- (PI - atan (k * s / (k * c)))) by lra.
        rewrite cos_neg, sin_neg.
        replace (PI - atan (k * s / (k * c)))
          with (- atan (k * s / (k * c)) + PI) by lra.
        rewrite neg_cos, neg_sin, cos_neg, sin_neg, E, cos_atan, sin_atan.
        unfold Rsqr. rewrite Hq.
        split; field; lra.
    + assert (Hc : c = 0) by nra.
      assert (Hs : s = 1 \/ s = -1).
      { assert (E : (s - 1) * (s + 1) = 0) by (rewrite Hc in Hsc; lra).
        destruct (Rmult_integral _ _ E); [left | right]; lra. }
      destruct (Rlt_dec 0 (k * s)) as [Hy | Hy].
      * rewrite cos_PI2, sin_PI2. destruct Hs; [lra | nra].
      * destruct (Rlt_dec (k * s) 0) as [Hy' | Hy'].
        -- rewrite cos_neg, sin_neg, cos_PI2, sin_PI2. destruct Hs; [nra | lra].
        -- destruct Hs; nra.
Qed.


(** ** Coordinates *)



(** ** The star: normalisation of the initial momentum *)



Lemma solve_regular (m : mat3) (v : vec3) :
  det3 m <> 0 -> solve m v = ret (cramer m v).
Proof. intros H. unfold solve. destruct (Req_dec_T (det3 m) 0); easy. Qed.

Lemma solve_singular (m : mat3) (v : vec3) :
  det3 m = 0 -> solve m v = raise LinAlgError.
Proof. intros H. unfold solve. destruct (Req_dec_T (det3 m) 0); easy. Qed.





(** ** Laws of [py], and indexing *)

Lemma bind_ret {A B : Type} (x : A) (k : A -> py B) : bind (ret x) k = k x.
Proof. unfold bind, ret. destruct (k x). reflexivity. Qed.

Lemma bind_raise {A B : Type} (e : exn) (k : A -> py B) :
  bind (raise e) k = raise e.
Proof. reflexivity. Qed.

Lemma item_in_range {A : Type} (l : list A) (i : nat) (d : A) :
  (i < length l)%nat -> item l i = ret (nth i l d).
Proof.
  intros H. unfold item. now rewrite (nth_error_nth' l d H).
Qed.

Lemma item_out_of_range {A : Type} (l : list A) (i : nat) :
  (length l <= i)%nat -> item l i = raise (IndexError i (length l)).
Proof.
  intros H. unfold item. now rewrite (proj2 (nth_error_None l i) H).
Qed.

Lemma take_in_range {A : Type} (l : list A) (idx : list nat) (d : A) :
  Forall (fun i => (i < length l)%nat) idx ->
  take l idx = ret (map (fun i => nth i l d) idx).
Proof.
  induction 1 as [| i idx Hi _ IH]; [reflexivity |].
  cbn [take map]. rewrite (item_in_range l i d Hi), bind_ret, IH, bind_ret.
  reflexivity.
Qed.

(** Indexing by an array of indices either returns an element per index or
    raises [IndexError]; it prints nothing. *)
Lemma take_cases {A : Type} (l : list A) (idx : list nat) :
  (exists xs, take l idx = ret xs /\ length xs = length idx) \/
  (exists i n, take l idx = raise (IndexError i n)).
Proof.
  induction idx as [| i idx IH].
  - left. exists []. split; reflexivity.
  - cbn [take]. destruct (Nat.lt_ge_cases i (length l)) as [Hi | Hi].
    + destruct (nth_error l i) as [x |] eqn:Ex;
        [| apply nth_error_None in Ex; lia].
      unfold item. rewrite Ex, bind_ret.
      destruct IH as [(xs & -> & Hlen) | (j & n & ->)].
      * left. exists (x :: xs). rewrite bind_ret. split; [reflexivity |].
        cbn. now rewrite Hlen.
      * right. exists j, n. reflexivity.
    + right. exists i, (length l). now rewrite item_out_of_range.
Qed.

(** ** The star: period, precession and semi-major axis *)

Section AnalysisFacts.

Variable a : R.
Variables maxima minima : list R -> list nat.
Variable orbit : list vec6.

Let t := Orbit.t orbit.
Let phase := Orbit.phase a orbit.
Let orbit_orb := Orbit.orbit_orb a orbit.
Let orbit_orb_x := Orbit.orbit_orb_x a orbit.
Let imaxs := Orbit.imaxs maxima orbit.
Let imins := Orbit.imins minima orbit.

Lemma length_t : length t = length orbit.
Proof. apply length_map. Qed.

Lemma length_orbit_orb : length orbit_orb = length orbit.
Proof.
  unfold orbit_orb, Orbit.orbit_orb, Orbit.orbit_obs, Orbit.orbit_xyz.
  now rewrite !length_map.
Qed.

Lemma length_phase : length phase = length orbit.
Proof. unfold phase, Orbit.phase. rewrite length_map. apply length_orbit_orb. Qed.

Lemma length_orbit_orb_x : length orbit_orb_x = length orbit.
Proof.
  unfold orbit_orb_x, Orbit.orbit_orb_x. rewrite length_map.
  apply length_orbit_orb.
Qed.

Lemma nth_phase (i : nat) :
  (i < length orbit)%nat ->
  nth i phase 0 = (let '(x, y, _) := nth i orbit_orb (0, 0, 0) in arctan2 y x).
Proof.
  intros Hi. unfold phase, Orbit.phase. fold orbit_orb.
  rewrite <- length_orbit_orb in Hi.
  set (f := fun p : vec3 => let '(x, y, _) := p in arctan2 y x).
  rewrite (nth_indep _ 0 (f (0, 0, 0))) by now rewrite length_map.
  apply (map_nth f).
Qed.

Lemma nth_orbit_orb_x (i : nat) :
  nth i orbit_orb_x 0 = (let '(x, _, _) := nth i orbit_orb (0, 0, 0) in x).
Proof.
  unfold orbit_orb_x, Orbit.orbit_orb_x. fold orbit_orb.
  apply (map_nth (fun p : vec3 => let '(x, _, _) := p in x) orbit_orb (0, 0, 0)).
Qed.

(** The period and the precession, each on its own: the values of
    [simul_period] and [deltaphase] when at least two maxima are detected. *)
Lemma simul_period_deltaphase_value (i0 i1 : nat) (rest : list nat) :
  imaxs = i0 :: i1 :: rest ->
  Forall (fun i => (i < length orbit)%nat) imaxs ->
  Orbit.simul_period maxima orbit = ret (nth i1 t 0 - nth i0 t 0) /\
  Orbit.deltaphase a maxima orbit
  = ret ((let '(x, y, _) := nth i1 orbit_orb (0, 0, 0) in arctan2 y x) + PI).
Proof.
  intros Emax Hin.
  assert (Hi1 : (i1 < length orbit)%nat).
  { rewrite Emax in Hin. inversion Hin as [| ? ? _ Hin']. now inversion Hin'. }
  split.
  - unfold Orbit.simul_period. fold t imaxs.
    rewrite (take_in_range t imaxs 0) by now rewrite length_t.
    rewrite Emax. cbn [map]. rewrite !bind_ret. reflexivity.
  - unfold Orbit.deltaphase. fold phase imaxs.
    rewrite (take_in_range phase imaxs 0) by now rewrite length_phase.
    rewrite Emax. cbn [map]. rewrite !bind_ret.
    cbn [item nth_error]. rewrite bind_ret. now rewrite nth_phase.
Qed.

(** C4, as the script behaves: with fewer than two detected maxima the
    analysis stops at the first statement with an uncaught [IndexError],
    having printed nothing; when the detected indices are rows of the
    trajectory, the index out of bounds is 1, into the array [t[imaxs]]. *)
Theorem too_few_maxima_index_error :
  (length imaxs < 2)%nat ->
  (exists i n,
     Orbit.analysis a maxima minima orbit = raise (IndexError i n)) /\
  (Forall (fun i => (i < length orbit)%nat) imaxs ->
   Orbit.analysis a maxima minima orbit
   = raise (IndexError 1 (length imaxs))).
Proof.
  intros Hlen. unfold Orbit.analysis, Orbit.simul_period. fold t imaxs.
  split.
  - destruct (take_cases t imaxs) as [(xs & -> & Hxs) | (i & n & ->)].
    + exists 1%nat, (length xs).
      rewrite bind_ret, item_out_of_range by lia. reflexivity.
    + exists i, n. reflexivity.
  - intros Hin.
    rewrite (take_in_range t imaxs 0) by now rewrite length_t.
    rewrite bind_ret, item_out_of_range by (rewrite length_map; lia).
    now rewrite length_map.
Qed.

(** The semi-major axis on its own: the value of [simul_sma] when a
    minimum and a maximum are detected. *)
Lemma simul_sma_value (j0 i0 : nat) (jrest irest : list nat) :
  imins = j0 :: jrest ->
  imaxs = i0 :: irest ->
  Forall (fun i => (i < length orbit)%nat) imins ->
  Forall (fun i => (i < length orbit)%nat) imaxs ->
  Orbit.simul_sma a maxima minima orbit
  = ret (((let '(x, _, _) := nth j0 orbit_orb (0, 0, 0) in x)
          - (let '(x, _, _) := nth i0 orbit_orb (0, 0, 0) in x)) / 2).
Proof.
  intros Emin Emax Hmin Hmax.
  unfold Orbit.simul_sma. fold orbit_orb_x imaxs imins.
  rewrite (take_in_range orbit_orb_x imins 0) by now rewrite length_orbit_orb_x.
  rewrite (take_in_range orbit_orb_x imaxs 0) by now rewrite length_orbit_orb_x.
  rewrite Emin, Emax. cbn [map]. rewrite !bind_ret.
  cbn [item nth_error]. rewrite !bind_ret. now rewrite !nth_orbit_orb_x.
Qed.

End AnalysisFacts.

(** *** On sample trajectories *)

Ltac compare_reals :=
  repeat match goal with
         | |- context [Rlt_dec ?x ?y] => destruct (Rlt_dec x y); try lra
         end.

Lemma one_turn_extrema :
  Extrema.maxima (Orbit.pr Sample.one_turn) = [1%nat] /\
  Extrema.minima (Orbit.pr Sample.one_turn) = [3%nat].
Proof.
  unfold Extrema.maxima, Extrema.minima. cbn. unfold Extrema.rises.
  compare_reals. split; reflexivity.
Qed.

Lemma two_turns_maxima :
  Extrema.maxima (Orbit.pr Sample.two_turns) = [1%nat; 5%nat].
Proof.
  unfold Extrema.maxima. cbn. unfold Extrema.rises.
  compare_reals. reflexivity.
Qed.

Lemma two_turns_minima :
  Extrema.minima (Orbit.pr Sample.two_turns) = [3%nat].
Proof.
  unfold Extrema.minima. cbn. unfold Extrema.rises.
  compare_reals. reflexivity.
Qed.

(** The detector returns indices of the array it is given. *)
Lemma turning_in_range (up : bool) (l : list R) :
  forall i : nat,
    Forall (fun k => (k < i + length l)%nat) (Extrema.turning up i l).
Proof.
  induction l as [| x tl IH]; intros i; [constructor |].
  specialize (IH (S i)). cbn [Extrema.turning].
  destruct tl as [| y [| z tl']]; [constructor | constructor |].
  assert (Htl : Forall (fun k => (k < i + length (x :: y :: z :: tl'))%nat)
                       (Extrema.turning up (S i) (y :: z :: tl'))).
  { eapply Forall_impl; [| exact IH]. cbn [length]. intros k Hk. lia. }
  destruct (if up then Extrema.rises x y && Extrema.rises z y
            else Extrema.rises y x && Extrema.rises y z);
    [constructor; [cbn [length]; lia | exact Htl] | exact Htl].
Qed.

Lemma maxima_in_range (l : list R) :
  Forall (fun k => (k < length l)%nat) (Extrema.maxima l).
Proof. apply (turning_in_range true l 0). Qed.

Lemma minima_in_range (l : list R) :
  Forall (fun k => (k < length l)%nat) (Extrema.minima l).
Proof. apply (turning_in_range false l 0). Qed.

(** On the trajectory with two maxima the analysis runs to its end: it
    returns the period 5 - 1 and prints the precession it found. *)
Lemma analysis_two_turns :
  exists sma dphase : R,
    Orbit.analysis Config.a Extrema.maxima Extrema.minima Sample.two_turns
    = ([PrintPrecession dphase; PrintTheory Orbit.thdeltaphase],
       inr (5 - 1, sma, dphase)).
Proof.
  unfold Orbit.analysis, Orbit.simul_period, Orbit.simul_sma, Orbit.deltaphase,
    Orbit.imaxs, Orbit.imins.
  rewrite two_turns_maxima, two_turns_minima.
  do 2 eexists. reflexivity.
Qed.

Lemma too_few_maxima_index_error_witness :
  (exists i n,
     Orbit.analysis Config.a Extrema.maxima Extrema.minima Sample.one_turn
     = raise (IndexError i n)) /\
  (Forall (fun i => (i < length Sample.one_turn)%nat)
          (Orbit.imaxs Extrema.maxima Sample.one_turn) ->
   Orbit.analysis Config.a Extrema.maxima Extrema.minima Sample.one_turn
   = raise (IndexError 1
              (length (Orbit.imaxs Extrema.maxima Sample.one_turn)))).
Proof.
  apply (too_few_maxima_index_error Config.a Extrema.maxima Extrema.minima
           Sample.one_turn).
  unfold Orbit.imaxs. rewrite (proj1 one_turn_extrema). cbn. lia.
Defined.

(** C4, as stated, fails: on a trajectory with a single detected maximum
    the analysis ends with [IndexError], raised by the read of element 1 of
    the one-element array [t[imaxs]]. *)
Lemma one_maximum_index_error :
  Orbit.imaxs Extrema.maxima Sample.one_turn = [1%nat] /\
  outcome (Orbit.analysis Config.a Extrema.maxima Extrema.minima
             Sample.one_turn)
  = inl (IndexError 1 1).
Proof.
  split; [apply one_turn_extrema |].
  unfold Orbit.analysis, Orbit.simul_period, Orbit.imaxs.
  rewrite (proj1 one_turn_extrema). reflexivity.
Qed.

(** With the spin along the line of sight, the change of frame flips the
    x and z axes. *)
Lemma bh_from_obs_matrix : bh_from_obs = ((-1, 0, 0), (0, 1, 0), (0, 0, -1)).
Proof.
  unfold bh_from_obs, R_spin_theta, R_spin_phi, Config.spin_theta,
    Config.spin_phi.
  rewrite cos_0, sin_0. cbn. tuple_eq; lra.
Qed.

Lemma obs_from_bh_matrix : obs_from_bh = ((-1, 0, 0), (0, 1, 0), (0, 0, -1)).
Proof. unfold obs_from_bh. rewrite bh_from_obs_matrix. reflexivity. Qed.

(** ** Rays: the direction solve *)

Lemma xyz0_components (x y : R) : Ray.xyz0 x y = (- x, y, - Ray.z_inf).
Proof.
  unfold Ray.xyz0. rewrite bh_from_obs_matrix. cbn. tuple_eq; lra.
Qed.

Lemma _v0_components : Ray._v0 = (0, 0, -1).
Proof.
  unfold Ray._v0. rewrite bh_from_obs_matrix. cbn. tuple_eq; lra.
Qed.

(** The determinant of the direction matrix. *)
Lemma det3_direction_matrix (a x0 y0 z0 r0 theta0 phi0 : R) :
  det3 (direction_matrix a (x0, y0, z0) (r0, theta0, phi0))
  = (x0 * x0 + y0 * y0)
    * (r0 / (r0 * r0 + a * a) * (r0 * sin theta0)
       - tan (theta0 - PI / 2) * (z0 / r0)).
Proof. cbn. unfold Rdiv. ring. Qed.

(** The [try] block of [minimum_distance]: with a regular matrix, [_p[1:4]]
    is the solution and nothing is printed; with a singular matrix, the
    matrix is printed and [_p] stays zero. *)
Lemma solve_direction_regular (x y a : R) :
  det3 (Ray.mat x y a) <> 0 ->
  Ray.solve_direction x y a
  = ret (let '(p1, p2, p3) := cramer (Ray.mat x y a) Ray._v0 in (0, p1, p2, p3)).
Proof.
  intros H. unfold Ray.solve_direction.
  rewrite (solve_regular _ _ H), bind_ret.
  destruct (cramer (Ray.mat x y a) Ray._v0) as [[p1 p2] p3]. reflexivity.
Qed.

Lemma solve_direction_singular (x y a : R) :
  det3 (Ray.mat x y a) = 0 ->
  Ray.solve_direction x y a = ([PrintMat (Ray.mat x y a)], inr (0, 0, 0, 0)).
Proof.
  intros H. unfold Ray.solve_direction.
  rewrite (solve_singular _ _ H). reflexivity.
Qed.

Lemma solve_direction_returns (x y a : R) :
  exists out _p, Ray.solve_direction x y a = (out, inr _p).
Proof.
  destruct (Req_dec_T (det3 (Ray.mat x y a)) 0) as [H | H].
  - rewrite (solve_direction_singular _ _ _ H). eauto.
  - rewrite (solve_direction_regular _ _ _ H). unfold ret. eauto.
Qed.

(** ** Rays: the loop over the sampled points *)

Lemma Rmin_fold_right_init (d init : R) (l : list R) :
  fold_right Rmin (Rmin d init) l = Rmin d (fold_right Rmin init l).
Proof.
  induction l as [| x l IH]; [reflexivity |].
  cbn [fold_right]. rewrite IH.
  rewrite !Rmin_assoc. f_equal. apply Rmin_comm.
Qed.

Lemma sqrt_Rmin (x y : R) : sqrt (Rmin x y) = Rmin (sqrt x) (sqrt y).
Proof.
  unfold Rmin.
  destruct (Rle_dec x y) as [H | H]; destruct (Rle_dec (sqrt x) (sqrt y)) as [H' | H'];
    try reflexivity.
  - exfalso. apply H'. now apply sqrt_le_1_alt.
  - apply Rle_antisym; [apply sqrt_le_1_alt; lra | exact H'].
Qed.

Lemma sqrt_fold_right_Rmin (init : R) (l : list R) :
  sqrt (fold_right Rmin init l) = fold_right Rmin (sqrt init) (map sqrt l).
Proof.
  induction l as [| x l IH]; [reflexivity |].
  cbn [fold_right map]. now rewrite sqrt_Rmin, IH.
Qed.

Lemma sentinel_value : sqrt (2 * Ray.z_inf * Ray.z_inf) = sqrt 2 * 100000.
Proof.
  unfold Ray.z_inf.
  replace (2 * 100000 * 100000) with (2 * (100000 * 100000)) by lra.
  rewrite sqrt_mult by lra. now rewrite sqrt_square by lra.
Qed.

(** The accumulator of the loop is a minimum that starts at the sentinel. *)
Lemma closest_capped_minimum (pos : vec3) (rows : list vec3) :
  Ray.closest pos rows
  = fold_right Rmin (sqrt 2 * 100000)
      (map (fun row => norm (sub3 (matvec3 obs_from_bh row) pos)) rows).
Proof.
  unfold Ray.closest. rewrite <- sentinel_value.
  set (dsq := fun row : vec3 =>
                dot3 (sub3 (matvec3 obs_from_bh row) pos)
                     (sub3 (matvec3 obs_from_bh row) pos)).
  assert (Hloop : forall init,
             fold_left
               (fun dist_sqr_min row =>
                  if Rlt_dec (dsq row) dist_sqr_min then dsq row
                  else dist_sqr_min) rows init
             = fold_right Rmin init (map dsq rows)).
  { induction rows as [| row rows IH]; intros init; [reflexivity |].
    cbn [fold_left map fold_right]. rewrite IH, <- Rmin_fold_right_init.
    f_equal. unfold Rmin.
    destruct (Rlt_dec (dsq row) init), (Rle_dec (dsq row) init); lra. }
  unfold dsq in Hloop. rewrite Hloop, sqrt_fold_right_Rmin, map_map.
  reflexivity.
Qed.

Lemma length_ray_xyz
    (metric_l : vec5 -> R -> mat4)
    (odeint_row : vec5 -> list R -> R -> R -> nat -> vec5)
    (x y a : R) (nt : nat) (_p : vec4) :
  length (Ray.ray_xyz metric_l odeint_row x y a nt _p) = (nt + 1)%nat.
Proof.
  unfold Ray.ray_xyz, Ray.ray, Ray.odeint, Ray._zeta, linspace.
  now rewrite !length_map, !length_seq.
Qed.

Section ShootingFacts.

Variable metric_l : vec5 -> R -> mat4.
Variable odeint_row : vec5 -> list R -> R -> R -> nat -> vec5.

Let minimum_distance := Ray.minimum_distance metric_l odeint_row.
Let ray_xyz := Ray.ray_xyz metric_l odeint_row.

(** the distance from [pos] of a sampled point, once in the observer frame *)
Let distance_to (pos row : vec3) : R :=
  norm (sub3 (matvec3 obs_from_bh row) pos).

Lemma minimum_distance_value (x y : R) (pos : vec3) (a : R) (nt : nat)
    (out : list line) (_p : vec4) :
  Ray.solve_direction x y a = (out, inr _p) ->
  minimum_distance x y pos a nt
  = (out, inr (Ray.closest pos (ray_xyz x y a nt _p))).
Proof.
  intros H. unfold minimum_distance, Ray.minimum_distance.
  rewrite H. cbn. now rewrite app_nil_r.
Qed.

(** C1, as the script computes it: [minimum_distance] always returns, and
    its value is the least of the sentinel sqrt(2) * 100000 and the
    distances to [pos] of the nt + 1 sampled points of the ray, taken in
    the observer frame. *)
Theorem minimum_distance_capped_minimum
    (x y : R) (pos : vec3) (a : R) (nt : nat) :
  exists (out : list line) (_p : vec4),
    Ray.solve_direction x y a = (out, inr _p) /\
    length (ray_xyz x y a nt _p) = (nt + 1)%nat /\
    minimum_distance x y pos a nt
    = (out, inr (fold_right Rmin (sqrt 2 * 100000)
                   (map (distance_to pos) (ray_xyz x y a nt _p)))).
Proof.
  destruct (solve_direction_returns x y a) as (out & _p & H).
  exists out, _p. split; [exact H |]. split; [apply length_ray_xyz |].
  rewrite (minimum_distance_value x y pos a nt out _p H).
  now rewrite closest_capped_minimum.
Qed.

Lemma capped_minimum_le (cap : R) (l : list R) : fold_right Rmin cap l <= cap.
Proof.
  induction l as [| d l IH]; cbn [fold_right]; [lra |].
  pose proof (Rmin_r d (fold_right Rmin cap l)). lra.
Qed.

Lemma capped_minimum_far (cap : R) (l : list R) :
  Forall (fun d => cap < d) l -> fold_right Rmin cap l = cap.
Proof.
  induction 1 as [| d l Hd _ IH]; cbn [fold_right]; [reflexivity |].
  rewrite IH. apply Rmin_right. lra.
Qed.

(** C9: [minimum_distance] never returns more than the sentinel
    sqrt(2) * 100000, and returns the sentinel itself when every sampled
    point is farther than that from the target. *)
Theorem minimum_distance_at_most_sentinel
    (x y : R) (pos : vec3) (a : R) (nt : nat) :
  exists d : R,
    outcome (minimum_distance x y pos a nt) = inr d /\
    d <= sqrt 2 * 100000 /\
    (forall _p : vec4,
        outcome (Ray.solve_direction x y a) = inr _p ->
        Forall (fun row => sqrt 2 * 100000 < distance_to pos row)
               (ray_xyz x y a nt _p) ->
        d = sqrt 2 * 100000).
Proof.
  destruct (solve_direction_returns x y a) as (out & _p & H).
  rewrite (minimum_distance_value x y pos a nt out _p H).
  rewrite closest_capped_minimum. eexists. split; [reflexivity |]. split.
  - apply capped_minimum_le.
  - intros _p' H' Hfar. rewrite H in H'. cbn in H'.
    injection H' as <-.
    apply capped_minimum_far. now apply Forall_map.
Qed.

(** C3, as the script behaves: when the direction matrix is singular the
    exception of the solve is caught, the matrix is printed, and the
    function carries on with the spatial momentum left at zero and returns
    the closest approach of the ray launched with it. *)
Theorem singular_direction_printed_and_ignored
    (x y : R) (pos : vec3) (a : R) (nt : nat) :
  det3 (Ray.mat x y a) = 0 ->
  solve (Ray.mat x y a) Ray._v0 = raise LinAlgError /\
  Ray.solve_direction x y a = ([PrintMat (Ray.mat x y a)], inr (0, 0, 0, 0)) /\
  minimum_distance x y pos a nt
  = ([PrintMat (Ray.mat x y a)],
     inr (Ray.closest pos (ray_xyz x y a nt (0, 0, 0, 0)))).
Proof.
  intros H. split; [now apply solve_singular |].
  pose proof (solve_direction_singular x y a H) as Hs.
  split; [exact Hs |].
  now apply minimum_distance_value.
Qed.

End ShootingFacts.

(** The direction matrix is singular for a ray along the polar axis. *)
Lemma mat_singular_on_axis (a : R) : det3 (Ray.mat 0 0 a) = 0.
Proof.
  unfold Ray.mat, Ray.pos0, xyz_to_bl. rewrite xyz0_components.
  rewrite det3_direction_matrix. ring.
Qed.

Lemma singular_direction_printed_and_ignored_witness :
  solve (Ray.mat 0 0 0.99) Ray._v0 = raise LinAlgError /\
  Ray.solve_direction 0 0 0.99
  = ([PrintMat (Ray.mat 0 0 0.99)], inr (0, 0, 0, 0)) /\
  Ray.minimum_distance Kerr.metric_l Sample.hold 0 0 (0, 0, 0) 0.99 10000
  = ([PrintMat (Ray.mat 0 0 0.99)],
     inr (Ray.closest (0, 0, 0)
            (Ray.ray_xyz Kerr.metric_l Sample.hold 0 0 0.99 10000
               (0, 0, 0, 0)))).
Proof.
  apply (singular_direction_printed_and_ignored Kerr.metric_l Sample.hold
           0 0 (0, 0, 0) 0.99 10000).
  apply mat_singular_on_axis.
Defined.

(** C3, as stated, fails: for the sky offset (0, 0) the matrix is singular,
    the solve raises, and yet [minimum_distance] returns a distance to its
    caller, computed from a spatial momentum that is zero. *)
Lemma singular_direction_not_surfaced :
  det3 (Ray.mat 0 0 0.99) = 0 /\
  outcome (solve (Ray.mat 0 0 0.99) Ray._v0) = inl LinAlgError /\
  outcome (Ray.solve_direction 0 0 0.99) = inr (0, 0, 0, 0) /\
  exists d : R,
    outcome (Ray.minimum_distance Kerr.metric_l Sample.hold
               0 0 (0, 0, 0) 0.99 10000) = inr d.
Proof.
  pose proof (mat_singular_on_axis 0.99) as H.
  split; [exact H |]. split; [now rewrite solve_singular |].
  pose proof (solve_direction_singular 0 0 0.99 H) as Hs.
  split; [now rewrite Hs |].
  rewrite (minimum_distance_value Kerr.metric_l Sample.hold 0 0 (0, 0, 0)
             0.99 10000 _ _ Hs).
  eexists. reflexivity.
Qed.

(** ** Rays: the energy at launch *)

(** The radius the inverse conversion returns is at least |z|. *)
Lemma r0_at_least_z (a x0 y0 z0 : R) :
  0 <= Star.r0 a (x0, y0, z0) /\
  z0 * z0 <= Star.r0 a (x0, y0, z0) * Star.r0 a (x0, y0, z0).
Proof.
  unfold Star.r0, Star.a_xyz, Star.x0, Star.y0, Star.z0.
  set (A := a * a - x0 * x0 - y0 * y0 - z0 * z0).
  set (X := A * A + 4 * a * a * z0 * z0).
  assert (HX : 0 <= X) by (unfold X; nra).
  pose proof (sqrt_pos X) as HD. pose proof (sqrt_sqrt X HX) as HDD.
  set (D := sqrt X) in *.
  assert (HY : 2 * (z0 * z0) + A <= D).
  { destruct (Rle_dec (2 * (z0 * z0) + A) D) as [H | H]; [exact H |].
    exfalso.
    assert (H1 : D * D < (2 * (z0 * z0) + A) * (2 * (z0 * z0) + A)) by nra.
    assert (H2 : X - (2 * (z0 * z0) + A) * (2 * (z0 * z0) + A)
                 = 4 * (z0 * z0) * (x0 * x0 + y0 * y0))
      by (unfold X, A; ring).
    assert (H3 : 0 <= 4 * (z0 * z0) * (x0 * x0 + y0 * y0)) by nra.
    lra. }
  split; [apply sqrt_pos |].
  rewrite sqrt_sqrt; nra.
Qed.

(** Far from the hole the t-t component of the Kerr metric is negative. *)
Lemma kerr_g_tt_negative (r theta a : R) :
  2 < r -> - (1 - 2 * r / Kerr.Sigma r theta a) < 0.
Proof.
  intros Hr.
  assert (Hs : r * r <= Kerr.Sigma r theta a).
  { unfold Kerr.Sigma.
    pose proof (Rle_0_sqr (a * cos theta)) as H. unfold Rsqr in H. nra. }
  assert (Hpos : 0 < Kerr.Sigma r theta a) by nra.
  assert (H : 2 * r / Kerr.Sigma r theta a < 1).
  { apply (Rmult_lt_reg_r (Kerr.Sigma r theta a)); [exact Hpos |].
    unfold Rdiv. rewrite Rmult_assoc, Rinv_l by lra. nra. }
  lra.
Qed.

Lemma cramer_phi_component (a x0 y0 z0 r0 theta0 phi0 : R) :
  (let '(_, _, p3) :=
     cramer (direction_matrix a (x0, y0, z0) (r0, theta0, phi0)) (0, 0, -1)
   in p3) = 0.
Proof. cbn. apply zero_div. unfold Rdiv. ring. Qed.

(** C8, over the reals: for every sky offset and spin for which the
    direction matrix is regular, and every metric whose value at the start
    of the ray has a non-zero t-t component and no t-r component, the ray
    is launched with energy E = -p_t = 1.  The solve gives no azimuthal
    component to a ray along the line of sight, so the t-phi coupling,
    which the script leaves out of its formula for [_p[0]], does not
    enter. *)
Theorem ray_energy_is_one_over_reals
    (metric_l : vec5 -> R -> mat4) (x y a : R)
    (g_tt g_tr g_ttheta g_tphi : R) (row_r row_theta row_phi : vec4) :
  Ray.metric0 metric_l x y a
  = ((g_tt, g_tr, g_ttheta, g_tphi), row_r, row_theta, row_phi) ->
  g_tt <> 0 -> g_tr = 0 ->
  det3 (Ray.mat x y a) <> 0 ->
  exists _p : vec4,
    Ray.solve_direction x y a = ret _p /\
    Ray.E metric_l x y a _p = 1.
Proof.
  intros Hg Htt Htr Hdet. eexists. split; [now apply solve_direction_regular |].
  unfold Ray.E, Ray._p_cov. rewrite Hg. clear Hg.
  unfold Ray.mat, Ray.pos0, xyz_to_bl. rewrite xyz0_components, _v0_components.
  pose proof (cramer_phi_component a (- x) y (- Ray.z_inf)
                (Star.r0 a (- x, y, - Ray.z_inf))
                (Star.theta0 a (- x, y, - Ray.z_inf))
                (Star.phi0 (- x, y, - Ray.z_inf))) as H3.
  destruct (cramer _ _) as [[p1 p2] p3]. subst p3 g_tr.
  cbn [Ray.set_energy matvec4 dot4].
  rewrite !Rmult_0_r, !Rmult_0_l. field. exact Htt.
Qed.

(** ** Rays: the start off the polar axis *)

(** Off the polar axis and off the equatorial plane, the inverse conversion
    returns a positive radius and a polar angle strictly inside (0, pi),
    and they give back the distance to the axis. *)
Lemma inverse_conversion_facts (a x0 y0 z0 : R) :
  0 < x0 * x0 + y0 * y0 -> z0 <> 0 ->
  let r0 := Star.r0 a (x0, y0, z0) in
  let theta0 := Star.theta0 a (x0, y0, z0) in
  0 < r0 /\ cos theta0 = z0 / r0 /\ 0 < sin theta0 /\
  (r0 * r0 + a * a) * (sin theta0 * sin theta0) = x0 * x0 + y0 * y0.
Proof.
  intros Hrho Hz r0 theta0.
  assert (Hz2 : 0 < z0 * z0) by nra.
  assert (Hr : exists Rd, r0 = sqrt Rd /\ z0 * z0 < Rd /\
                 (Rd + a * a) * (Rd - z0 * z0) = (x0 * x0 + y0 * y0) * Rd).
  { unfold r0, Star.r0, Star.a_xyz, Star.x0, Star.y0, Star.z0.
    set (A := a * a - x0 * x0 - y0 * y0 - z0 * z0).
    set (X := A * A + 4 * a * a * z0 * z0).
    assert (HX : 0 <= X) by (unfold X; nra).
    pose proof (sqrt_pos X) as HD. pose proof (sqrt_sqrt X HX) as HDD.
    set (D := sqrt X) in *.
    assert (H2 : X - (2 * (z0 * z0) + A) * (2 * (z0 * z0) + A)
                 = 4 * (z0 * z0) * (x0 * x0 + y0 * y0))
      by (unfold X, A; ring).
    assert (H3 : 0 < 4 * (z0 * z0) * (x0 * x0 + y0 * y0)) by nra.
    assert (HY : 2 * (z0 * z0) + A < D).
    { destruct (Rlt_dec (2 * (z0 * z0) + A) D) as [H | H]; [exact H |].
      exfalso.
      assert (D * D <= (2 * (z0 * z0) + A) * (2 * (z0 * z0) + A)) by nra.
      lra. }
    exists (- 0.5 * A + 0.5 * D). split; [reflexivity |]. split; [lra |].
    assert (E : (x0 * x0 + y0 * y0) = a * a - z0 * z0 - A) by (unfold A; ring).
    rewrite E.
    assert (HDX : D * D = A * A + 4 * a * a * z0 * z0) by (rewrite HDD; reflexivity).
    nra. }
  destruct Hr as (Rd & Er & Hlt & Hquad).
  assert (HRd : 0 < Rd) by lra.
  assert (Hr0 : 0 < r0) by (rewrite Er; now apply sqrt_lt_R0).
  assert (Hr02 : r0 * r0 = Rd) by (rewrite Er; apply sqrt_sqrt; lra).
  set (c := z0 / r0).
  assert (Hc2 : c * c * Rd = z0 * z0).
  { unfold c. rewrite <- Hr02. field. lra. }
  assert (Hcc : c * c < 1).
  { apply (Rmult_lt_reg_r Rd); [exact HRd |]. lra. }
  assert (Hc : -1 < c < 1) by nra.
  assert (Hcos : cos theta0 = c).
  { unfold theta0, Star.theta0. fold r0. unfold Star.z0. fold c.
    apply cos_acos. lra. }
  assert (Hsin : sin theta0 = sqrt (1 - c * c)).
  { unfold theta0, Star.theta0. fold r0. unfold Star.z0. fold c.
    rewrite sin_acos by lra. reflexivity. }
  assert (H1c : 0 < 1 - c * c) by nra.
  split; [exact Hr0 |]. split; [exact Hcos |].
  split; [rewrite Hsin; now apply sqrt_lt_R0 |].
  rewrite Hsin, sqrt_sqrt, Hr02 by lra.
  apply (Rmult_eq_reg_r Rd); [| lra]. nra.
Qed.

Lemma tan_quarter_turn_back (theta : R) :
  sin theta <> 0 -> tan (theta - PI / 2) = - cos theta / sin theta.
Proof.
  intros H. unfold tan. rewrite sin_minus, cos_minus, cos_PI2, sin_PI2.
  field. lra.
Qed.

(** The direction matrix is regular for every ray off the polar axis. *)
Lemma mat_regular_off_axis (x y a : R) :
  0 < x * x + y * y -> det3 (Ray.mat x y a) <> 0.
Proof.
  intros Hxy.
  unfold Ray.mat, Ray.pos0, xyz_to_bl. rewrite xyz0_components.
  rewrite det3_direction_matrix.
  assert (Hz : - Ray.z_inf <> 0) by (unfold Ray.z_inf; lra).
  assert (Hrho : 0 < - x * - x + y * y) by nra.
  destruct (inverse_conversion_facts a (- x) y (- Ray.z_inf) Hrho Hz)
    as (Hr0 & Hcos & Hsin & _).
  set (r0 := Star.r0 a (- x, y, - Ray.z_inf)) in *.
  set (theta0 := Star.theta0 a (- x, y, - Ray.z_inf)) in *.
  rewrite tan_quarter_turn_back by lra.
  rewrite <- Hcos.
  set (s := sin theta0) in *. set (c := cos theta0) in *.
  assert (H1 : 0 < r0 / (r0 * r0 + a * a) * (r0 * s)).
  { apply Rmult_lt_0_compat; [| nra].
    apply Rdiv_lt_0_compat; nra. }
  assert (H2 : 0 <= - (- c / s * c)).
  { replace (- (- c / s * c)) with (c * c * / s) by (field; lra).
    apply Rmult_le_pos; [nra |]. left. now apply Rinv_0_lt_compat. }
  apply Rgt_not_eq. apply Rmult_lt_0_compat; lra.
Qed.

(** At the sky offset (-2230, 388), in the Kerr metric. *)
Lemma ray_energy_is_one_over_reals_witness :
  exists _p : vec4,
    Ray.solve_direction (-2230) 388 0.99 = ret _p /\
    Ray.E Kerr.metric_l (-2230) 388 0.99 _p = 1.
Proof.
  eapply (ray_energy_is_one_over_reals Kerr.metric_l (-2230) 388 0.99).
  - unfold Ray.metric0, Ray.ray0_init, Ray.pos0, xyz_to_bl.
    rewrite xyz0_components. reflexivity.
  - apply Rlt_not_eq. apply kerr_g_tt_negative.
    destruct (r0_at_least_z 0.99 (- -2230) 388 (- Ray.z_inf)) as [H0 Hz].
    unfold Ray.z_inf in *. nra.
  - reflexivity.
  - apply mat_regular_off_axis. lra.
Defined.

(** Converting a Cartesian point to Boyer-Lindquist coordinates and back
    returns the point (off the polar axis and the equatorial plane). *)
Lemma xyz_bl_round_trip (a x0 y0 z0 : R) :
  0 < x0 * x0 + y0 * y0 -> z0 <> 0 ->
  bl_to_xyz a (xyz_to_bl (x0, y0, z0) a) = (x0, y0, z0).
Proof.
  intros Hrho Hz.
  destruct (inverse_conversion_facts a x0 y0 z0 Hrho Hz)
    as (Hr0 & Hcos & Hsin & Hk2).
  unfold xyz_to_bl. cbn [bl_to_xyz].
  set (r0 := Star.r0 a (x0, y0, z0)) in *.
  set (theta0 := Star.theta0 a (x0, y0, z0)) in *.
  assert (Hq : 0 < r0 * r0 + a * a) by nra.
  pose proof (sqrt_lt_R0 _ Hq) as Hs0.
  pose proof (sqrt_sqrt (r0 * r0 + a * a) (Rlt_le _ _ Hq)) as Hss.
  set (k := sqrt (r0 * r0 + a * a) * sin theta0).
  assert (Hk : 0 < k) by (unfold k; nra).
  assert (Hkk : k * k = x0 * x0 + y0 * y0).
  { transitivity (sqrt (r0 * r0 + a * a) * sqrt (r0 * r0 + a * a)
                  * (sin theta0 * sin theta0)).
    - unfold k. ring.
    - rewrite Hss. exact Hk2. }
  assert (Hdir : (y0 / k) * (y0 / k) + (x0 / k) * (x0 / k) = 1).
  { replace (y0 / k * (y0 / k) + x0 / k * (x0 / k))
      with ((x0 * x0 + y0 * y0) / (k * k)) by (field; lra).
    rewrite Hkk. field. lra. }
  destruct (arctan2_direction k (y0 / k) (x0 / k) Hk Hdir) as [Hc Hs].
  replace (k * (y0 / k)) with y0 in Hc, Hs by (field; lra).
  replace (k * (x0 / k)) with x0 in Hc, Hs by (field; lra).
  unfold Star.phi0, Star.x0, Star.y0. rewrite Hc, Hs, Hcos. fold k.
  tuple_eq; field; lra.
Qed.

(** With an integrator that leaves the ray at its start and a grid reduced
    to the point 0, the single sample is the start itself. *)
Lemma held_ray_sample (metric_l : vec5 -> R -> mat4) (x y a : R) (_p : vec4) :
  0 < x * x + y * y ->
  map (matvec3 obs_from_bh) (Ray.ray_xyz metric_l Sample.hold x y a 0 _p)
  = [(x, y, Ray.z_inf)].
Proof.
  intros Hxy.
  unfold Ray.ray_xyz, Ray.ray, Ray.odeint, Ray._zeta, linspace, Sample.hold.
  cbn [Nat.add seq map length].
  unfold Ray.ray0, Ray.ray0_init, Ray.pos0.
  destruct (Ray._p_cov metric_l x y a _p) as [[[p_t p_r] p_theta] p_phi].
  pose proof (xyz_bl_round_trip a (- x) y (- Ray.z_inf)) as Hround.
  rewrite xyz0_components.
  unfold xyz_to_bl in *. rewrite Hround by (unfold Ray.z_inf; nra).
  rewrite obs_from_bh_matrix. cbn.
  apply (f_equal (fun p : vec3 => [p])). tuple_eq; lra.
Qed.

Lemma sqrt_2_lt_2 : sqrt 2 < 2.
Proof.
  replace 2 with (sqrt (2 * 2)) at 2 by (apply sqrt_square; lra).
  apply sqrt_lt_1; lra.
Qed.

(** C1, as stated, fails: with the grid reduced to its first point, the
    ray from the sky offset (-2230, 388) is sampled at its start only, at
    distance 1000000 from the target (-2230, 388, 1100000), and
    [minimum_distance] returns sqrt(2) * 100000. *)
Lemma minimum_distance_misses_far_target :
  let pos : vec3 := (-2230, 388, 1100000) in
  let minimum_distance := Ray.minimum_distance Kerr.metric_l Sample.hold in
  let ray_xyz := Ray.ray_xyz Kerr.metric_l Sample.hold in
  exists _p : vec4,
    Ray.solve_direction (-2230) 388 0.99 = ret _p /\
    map (matvec3 obs_from_bh) (ray_xyz (-2230) 388 0.99 0%nat _p)
    = [(-2230, 388, 100000)] /\
    norm (sub3 (-2230, 388, 100000) pos) = 1000000 /\
    minimum_distance (-2230) 388 pos 0.99 0%nat = ret (sqrt 2 * 100000) /\
    sqrt 2 * 100000 <> 1000000.
Proof.
  intros pos minimum_distance ray_xyz.
  assert (Hxy : 0 < -2230 * -2230 + 388 * 388) by lra.
  eexists. split.
  { apply solve_direction_regular. now apply mat_regular_off_axis. }
  set (_p := let '(p1, p2, p3) := cramer _ _ in _).
  pose proof (held_ray_sample Kerr.metric_l (-2230) 388 0.99 _p Hxy) as Hsample.
  assert (Hnorm : norm (sub3 (-2230, 388, 100000) pos) = 1000000).
  { unfold norm, pos. cbn [sub3 dot3].
    replace ((-2230 - -2230) * (-2230 - -2230) + (388 - 388) * (388 - 388)
             + (100000 - 1100000) * (100000 - 1100000))
      with (1000000 * 1000000) by lra.
    apply sqrt_square. lra. }
  pose proof sqrt_2_lt_2 as H2.
  split; [exact Hsample |]. split; [exact Hnorm |]. split; [| lra].
  unfold minimum_distance.
  rewrite (minimum_distance_value Kerr.metric_l Sample.hold (-2230) 388 pos
             0.99 0 [] _p)
    by (apply solve_direction_regular; now apply mat_regular_off_axis).
  rewrite closest_capped_minimum.
  rewrite <- (map_map (matvec3 obs_from_bh) (fun p => norm (sub3 p pos))).
  rewrite Hsample.
  cbn [map fold_right]. unfold Ray.z_inf. fold pos. rewrite Hnorm.
  unfold ret. do 2 f_equal. apply Rmin_right. lra.
Qed.

Lemma minimum_distance_at_most_sentinel_witness :
  exists d : R,
    outcome (Ray.minimum_distance Kerr.metric_l Sample.hold
               (-2230) 388 (0, 0, -1000000) 0.99 0)
    = inr d /\
    d = sqrt 2 * 100000.
Proof.
  destruct (minimum_distance_at_most_sentinel Kerr.metric_l Sample.hold
              (-2230) 388 (0, 0, -1000000) 0.99 0) as (d & Hd & _ & Hfar).
  exists d. split; [exact Hd |].
  assert (Hxy : 0 < -2230 * -2230 + 388 * 388) by lra.
  eapply Hfar.
  - rewrite solve_direction_regular by now apply mat_regular_off_axis.
    reflexivity.
  - apply (proj1 (Forall_map (matvec3 obs_from_bh)
                    (fun p => sqrt 2 * 100000 < norm (sub3 p (0, 0, -1000000)))
                    _)).
    rewrite (held_ray_sample Kerr.metric_l (-2230) 388 0.99 _ Hxy).
    repeat constructor.
    rewrite <- sentinel_value. unfold norm, Ray.z_inf. cbn [sub3 dot3].
    apply sqrt_lt_1; lra.
Defined.

(** ** The grid scan: what is printed *)

Lemma stdout_print_bind {B : Type} (l : line) (k : unit -> py B) :
  stdout (bind (print l) k) = l :: stdout (k tt).
Proof. unfold bind, print, stdout. destruct (k tt). reflexivity. Qed.

Lemma stdout_bind {A B : Type} (P : line -> Prop) (m : py A) (k : A -> py B) :
  Forall P (stdout m) -> (forall x, Forall P (stdout (k x))) ->
  Forall P (stdout (bind m k)).
Proof.
  intros Hm Hk. destruct m as [out [e | x]]; cbn in *; [exact Hm |].
  specialize (Hk x). destruct (k x) as [out' r]. cbn in *.
  apply Forall_app. now split.
Qed.

Lemma stdout_for_each {I S : Type} (P : line -> Prop)
    (body : I -> S -> py S) (l : list I) :
  (forall i s, Forall P (stdout (body i s))) ->
  forall s, Forall P (stdout (for_each l body s)).
Proof.
  intros Hbody. induction l as [| i l IH]; intros s; cbn [for_each].
  - constructor.
  - apply stdout_bind; [apply Hbody | exact IH].
Qed.

Lemma stdout_item {A : Type} (l : list A) (i : nat) : stdout (item l i) = [].
Proof. unfold item. now destruct (nth_error l i). Qed.

Lemma stdout_setitem {A : Type} (l : list A) (i : nat) (v : A) :
  stdout (setitem l i v) = [].
Proof. unfold setitem. now destruct (i <? length l)%nat. Qed.

Lemma all_zero_min (l : list R) :
  Forall (fun v => v = 0) l -> fold_left Rmin l 0 = 0.
Proof.
  induction 1 as [| v l Hv _ IH]; [reflexivity |].
  cbn [fold_left]. subst v. rewrite Rmin_left by lra. exact IH.
Qed.

(** The minimum of a freshly allocated grid is 0. *)
Lemma amin_zeros (rows cols : nat) :
  amin (zeros (S rows) (S cols)) = ret 0.
Proof.
  unfold amin, zeros. cbn [repeat concat app]. f_equal. f_equal.
  apply all_zero_min. apply Forall_forall. intros v Hv.
  apply in_app_or in Hv. destruct Hv as [Hv | Hv].
  - now apply repeat_spec in Hv.
  - apply in_concat in Hv. destruct Hv as (row & Hrow & Hv).
    apply repeat_spec in Hrow. subst row.
    change (0 :: repeat 0 cols) with (repeat 0 (S cols)) in Hv.
    now apply repeat_spec in Hv.
Qed.

Section ScanFacts.

Variable metric_l : vec5 -> R -> mat4.
Variable odeint_row : vec5 -> list R -> R -> R -> nat -> vec5.
Variable peri_obs : vec3.

Lemma stdout_minimum_distance (x y : R) (pos : vec3) (a : R) (nt : nat) :
  Forall other_line
         (stdout (Ray.minimum_distance metric_l odeint_row x y pos a nt)).
Proof.
  destruct (Req_dec_T (det3 (Ray.mat x y a)) 0) as [H | H].
  - rewrite (minimum_distance_value _ _ x y pos a nt _ _
               (solve_direction_singular x y a H)).
    repeat constructor. intros v. discriminate.
  - rewrite (minimum_distance_value _ _ x y pos a nt _ _
               (solve_direction_regular x y a H)).
    constructor.
Qed.

Lemma stdout_cell (i j : nat) (min_dist : list (list R)) :
  Forall other_line
         (stdout (Ray.cell metric_l odeint_row peri_obs i j min_dist)).
Proof.
  unfold Ray.cell.
  apply stdout_bind; [rewrite stdout_item; constructor | intros _x].
  apply stdout_bind; [rewrite stdout_item; constructor | intros _y].
  apply stdout_bind; [apply stdout_minimum_distance | intros d].
  apply stdout_bind.
  { unfold setitem2.
    apply stdout_bind; [rewrite stdout_item; constructor | intros row].
    apply stdout_bind; [rewrite stdout_setitem; constructor | intros row'].
    rewrite stdout_setitem. constructor. }
  intros min_dist'. rewrite stdout_print_bind.
  constructor; [intros v; discriminate | constructor].
Qed.

(** C10: the value printed as 'Closest Ray' is the minimum of the grid
    [min_dist] as allocated, before the scan has filled any cell: it is 0
    whatever the scan computes, and it is the first and only such line. *)
Theorem closest_ray_printed_is_zero :
  amin (zeros Config.ny Config.nx) = ret 0 /\
  exists rest : list line,
    stdout (Ray.scan metric_l odeint_row peri_obs) = PrintClosest 0 :: rest /\
    Forall other_line rest.
Proof.
  assert (Hmin : amin (zeros Config.ny Config.nx) = ret 0)
    by apply (amin_zeros 24 24).
  split; [exact Hmin |].
  unfold Ray.scan. rewrite Hmin, bind_ret, stdout_print_bind.
  eexists. split; [reflexivity |].
  apply stdout_for_each. intros i min_dist.
  apply stdout_for_each. intros j min_dist'.
  apply stdout_cell.
Qed.

End ScanFacts.

(** * Further properties of the script *)

(** ** Frames: the changes of frame are rotations *)

Lemma matvec3_matmul (m n : mat3) (v : vec3) :
  matvec3 (matmul m n) v = matvec3 m (matvec3 n v).
Proof.
  destruct m as [[[[m00 m01] m02] [[m10 m11] m12]] [[m20 m21] m22]].
  destruct n as [[[[n00 n01] n02] [[n10 n11] n12]] [[n20 n21] n22]].
  destruct v as [[x y] z]. cbn. tuple_eq; ring.
Qed.

Lemma transpose_matmul (m n : mat3) :
  transpose (matmul m n) = matmul (transpose n) (transpose m).
Proof.
  destruct m as [[[[m00 m01] m02] [[m10 m11] m12]] [[m20 m21] m22]].
  destruct n as [[[[n00 n01] n02] [[n10 n11] n12]] [[n20 n21] n22]].
  cbn. tuple_eq; ring.
Qed.

Lemma transpose_involutive (m : mat3) : transpose (transpose m) = m.
Proof.
  destruct m as [[[[m00 m01] m02] [[m10 m11] m12]] [[m20 m21] m22]].
  reflexivity.
Qed.

Lemma undone_matmul (m n : mat3) :
  undone_by_transpose m -> undone_by_transpose n ->
  undone_by_transpose (matmul m n).
Proof.
  intros Hm Hn v. rewrite transpose_matmul, !matvec3_matmul. split.
  - rewrite (proj1 (Hm _)). apply Hn.
  - rewrite (proj2 (Hn _)). apply Hm.
Qed.

Lemma undone_transpose (m : mat3) :
  undone_by_transpose m -> undone_by_transpose (transpose m).
Proof.
  intros Hm v. rewrite transpose_involutive. split; apply Hm.
Qed.

Lemma turn_about_z (t : R) :
  undone_by_transpose ((cos t, - sin t, 0), (sin t, cos t, 0), (0, 0, 1)).
Proof.
  intros [[x y] z]. pose proof (sin_cos_sqr t) as H.
  set (s := sin t) in *. set (c := cos t) in *.
  assert (Hx : (s * s + c * c) * x = x) by (rewrite H; ring).
  assert (Hy : (s * s + c * c) * y = y) by (rewrite H; ring).
  assert (Hz : (s * s + c * c) * z = z) by (rewrite H; ring).
  cbn. split; tuple_eq; lra.
Qed.

Lemma turn_about_x (t : R) :
  undone_by_transpose ((1, 0, 0), (0, cos t, - sin t), (0, sin t, cos t)).
Proof.
  intros [[x y] z]. pose proof (sin_cos_sqr t) as H.
  set (s := sin t) in *. set (c := cos t) in *.
  assert (Hx : (s * s + c * c) * x = x) by (rewrite H; ring).
  assert (Hy : (s * s + c * c) * y = y) by (rewrite H; ring).
  assert (Hz : (s * s + c * c) * z = z) by (rewrite H; ring).
  cbn. split; tuple_eq; lra.
Qed.

Lemma obs_from_orb_undone : undone_by_transpose obs_from_orb.
Proof.
  unfold obs_from_orb.
  apply undone_matmul; [apply undone_matmul |].
  - apply turn_about_z.
  - apply turn_about_x.
  - apply turn_about_z.
Qed.

Lemma bh_from_obs_undone : undone_by_transpose bh_from_obs.
Proof.
  rewrite bh_from_obs_matrix. intros [[x y] z]. cbn. split; tuple_eq; lra.
Qed.

(** X1: the transposes the script takes are inverses, as its comment on
    orthogonal matrices says: going to another frame and back returns the
    vector, for the orbital plane and for the black-hole frame, in both
    directions. *)
Theorem frames_round_trip (v : vec3) :
  matvec3 orb_from_obs (matvec3 obs_from_orb v) = v /\
  matvec3 obs_from_orb (matvec3 orb_from_obs v) = v /\
  matvec3 obs_from_bh (matvec3 bh_from_obs v) = v /\
  matvec3 bh_from_obs (matvec3 obs_from_bh v) = v.
Proof.
  pose proof (obs_from_orb_undone v) as [H1 H2].
  pose proof (bh_from_obs_undone v) as [H3 H4].
  unfold orb_from_obs, obs_from_bh. auto.
Qed.

Lemma dot3_transpose (m : mat3) (u w : vec3) :
  dot3 (matvec3 m u) w = dot3 u (matvec3 (transpose m) w).
Proof.
  destruct m as [[[[m00 m01] m02] [[m10 m11] m12]] [[m20 m21] m22]].
  destruct u as [[u0 u1] u2]. destruct w as [[w0 w1] w2]. cbn. ring.
Qed.

Lemma undone_preserves_dot (m : mat3) (u v : vec3) :
  undone_by_transpose m -> dot3 (matvec3 m u) (matvec3 m v) = dot3 u v.
Proof.
  intros Hm. now rewrite dot3_transpose, (proj1 (Hm v)).
Qed.

Lemma undone_preserves_norm (m : mat3) (v : vec3) :
  undone_by_transpose m -> norm (matvec3 m v) = norm v.
Proof. intros Hm. unfold norm. now rewrite undone_preserves_dot. Qed.

(** X2: moving the integrated orbit to the observer frame and to the
    orbital plane keeps, row by row, the distance to the black hole. *)
Theorem orbit_frames_keep_distance (a : R) (orbit : list vec6) :
  map norm (Orbit.orbit_obs a orbit) = map norm (Orbit.orbit_xyz a orbit) /\
  map norm (Orbit.orbit_orb a orbit) = map norm (Orbit.orbit_xyz a orbit).
Proof.
  assert (Hobs : map norm (Orbit.orbit_obs a orbit)
                 = map norm (Orbit.orbit_xyz a orbit)).
  { unfold Orbit.orbit_obs. rewrite map_map. apply map_ext. intros p.
    apply undone_preserves_norm, undone_transpose, bh_from_obs_undone. }
  split; [exact Hobs |].
  rewrite <- Hobs. unfold Orbit.orbit_orb. rewrite map_map.
  apply map_ext. intros p.
  apply undone_preserves_norm, undone_transpose, obs_from_orb_undone.
Qed.

(** ** Coordinates: from Cartesian to Boyer-Lindquist and back *)

(** Away from the disc z = 0, x^2 + y^2 <= a^2, the inverse conversion
    returns a positive radius whose polar angle gives back z and the
    distance to the axis. *)
Lemma conversion_facts (a x0 y0 z0 : R) :
  z0 <> 0 \/ a * a < x0 * x0 + y0 * y0 ->
  let r0 := Star.r0 a (x0, y0, z0) in
  let theta0 := Star.theta0 a (x0, y0, z0) in
  0 < r0 /\ cos theta0 = z0 / r0 /\ 0 <= sin theta0 /\
  (r0 * r0 + a * a) * (sin theta0 * sin theta0) = x0 * x0 + y0 * y0.
Proof.
  intros Hout r0 theta0.
  assert (Hr : exists Rd, r0 = sqrt Rd /\ z0 * z0 <= Rd /\ 0 < Rd /\
                 (Rd + a * a) * (Rd - z0 * z0) = (x0 * x0 + y0 * y0) * Rd).
  { unfold r0, Star.r0, Star.a_xyz, Star.x0, Star.y0, Star.z0.
    set (A := a * a - x0 * x0 - y0 * y0 - z0 * z0).
    set (X := A * A + 4 * a * a * z0 * z0).
    assert (HX : 0 <= X) by (unfold X; nra).
    pose proof (sqrt_pos X) as HD. pose proof (sqrt_sqrt X HX) as HDD.
    set (D := sqrt X) in *.
    assert (H2 : X - (2 * (z0 * z0) + A) * (2 * (z0 * z0) + A)
                 = 4 * (z0 * z0) * (x0 * x0 + y0 * y0))
      by (unfold X, A; ring).
    assert (H3 : 0 <= 4 * (z0 * z0) * (x0 * x0 + y0 * y0)) by nra.
    assert (HY : 2 * (z0 * z0) + A <= D).
    { destruct (Rle_dec (2 * (z0 * z0) + A) D) as [H | H]; [exact H |].
      exfalso.
      assert (D * D < (2 * (z0 * z0) + A) * (2 * (z0 * z0) + A)) by nra.
      lra. }
    exists (- 0.5 * A + 0.5 * D). split; [reflexivity |]. split; [lra |].
    split.
    - destruct Hout as [Hz | Ha].
      + assert (0 < z0 * z0) by nra. lra.
      + assert (A < 0) by (unfold A; nra). lra.
    - assert (E : (x0 * x0 + y0 * y0) = a * a - z0 * z0 - A) by (unfold A; ring).
      rewrite E.
      assert (HDX : D * D = A * A + 4 * a * a * z0 * z0)
        by (rewrite HDD; reflexivity).
      nra. }
  destruct Hr as (Rd & Er & Hle & HRd & Hquad).
  assert (Hr0 : 0 < r0) by (rewrite Er; now apply sqrt_lt_R0).
  assert (Hr02 : r0 * r0 = Rd) by (rewrite Er; apply sqrt_sqrt; lra).
  set (c := z0 / r0).
  assert (Hc2 : c * c * Rd = z0 * z0).
  { unfold c. rewrite <- Hr02. field. lra. }
  assert (Hcc : c * c <= 1).
  { apply (Rmult_le_reg_r Rd); [exact HRd |]. lra. }
  assert (Hc : -1 <= c <= 1) by nra.
  assert (Hcos : cos theta0 = c).
  { unfold theta0, Star.theta0. fold r0. unfold Star.z0. fold c.
    now apply cos_acos. }
  assert (Hsin : sin theta0 = sqrt (1 - c * c)).
  { unfold theta0, Star.theta0. fold r0. unfold Star.z0. fold c.
    now rewrite sin_acos. }
  split; [exact Hr0 |]. split; [exact Hcos |].
  split; [rewrite Hsin; apply sqrt_pos |].
  rewrite Hsin, sqrt_sqrt, Hr02 by lra.
  apply (Rmult_eq_reg_r Rd); [| lra]. nra.
Qed.

Lemma xyz_round_trip_outside_disc (a x0 y0 z0 : R) :
  z0 <> 0 \/ a * a < x0 * x0 + y0 * y0 ->
  bl_to_xyz a (Star.r0 a (x0, y0, z0), Star.theta0 a (x0, y0, z0),
               Star.phi0 (x0, y0, z0))
  = (x0, y0, z0).
Proof.
  intros Hout.
  destruct (conversion_facts a x0 y0 z0 Hout) as (Hr0 & Hcos & Hsin & Hk2).
  cbn [bl_to_xyz].
  set (r0 := Star.r0 a (x0, y0, z0)) in *.
  set (theta0 := Star.theta0 a (x0, y0, z0)) in *.
  assert (Hq : 0 < r0 * r0 + a * a) by nra.
  pose proof (sqrt_lt_R0 _ Hq) as Hs0.
  pose proof (sqrt_sqrt (r0 * r0 + a * a) (Rlt_le _ _ Hq)) as Hss.
  set (k := sqrt (r0 * r0 + a * a) * sin theta0).
  assert (Hk : 0 <= k) by (unfold k; nra).
  assert (Hkk : k * k = x0 * x0 + y0 * y0).
  { transitivity (sqrt (r0 * r0 + a * a) * sqrt (r0 * r0 + a * a)
                  * (sin theta0 * sin theta0)).
    - unfold k. ring.
    - rewrite Hss. exact Hk2. }
  assert (Hz : r0 * cos theta0 = z0) by (rewrite Hcos; field; lra).
  destruct (Req_dec_T k 0) as [Hk0 | Hk0].
  - assert (Hx0 : x0 = 0) by nra. assert (Hy0 : y0 = 0) by nra.
    rewrite Hk0, Hz, Hx0, Hy0. tuple_eq; ring.
  - assert (Hkpos : 0 < k) by lra.
    assert (Hdir : (y0 / k) * (y0 / k) + (x0 / k) * (x0 / k) = 1).
    { replace (y0 / k * (y0 / k) + x0 / k * (x0 / k))
        with ((x0 * x0 + y0 * y0) / (k * k)) by (field; lra).
      rewrite Hkk. field. nra. }
    destruct (arctan2_direction k (y0 / k) (x0 / k) Hkpos Hdir) as [Hc Hs].
    replace (k * (y0 / k)) with y0 in Hc, Hs by (field; lra).
    replace (k * (x0 / k)) with x0 in Hc, Hs by (field; lra).
    unfold Star.phi0, Star.x0, Star.y0. rewrite Hc, Hs, Hz.
    tuple_eq; try reflexivity; field; lra.
Qed.

(** X3: the check the script notes beside the conversion ("change back to
    get starting point"): a Cartesian point outside the disc z = 0,
    x^2 + y^2 <= a^2 is given back by the forward conversion of its
    Boyer-Lindquist coordinates r0, theta0, phi0. *)
Theorem cartesian_round_trip (a x0 y0 z0 : R) :
  z0 <> 0 \/ a * a < x0 * x0 + y0 * y0 ->
  bl_to_xyz a (Star.r0 a (x0, y0, z0), Star.theta0 a (x0, y0, z0),
               Star.phi0 (x0, y0, z0))
  = (x0, y0, z0).
Proof. apply xyz_round_trip_outside_disc. Qed.

Lemma cartesian_round_trip_witness :
  bl_to_xyz 0.99 (Star.r0 0.99 (3, 4, 0), Star.theta0 0.99 (3, 4, 0),
                  Star.phi0 (3, 4, 0))
  = (3, 4, 0).
Proof. apply (cartesian_round_trip 0.99 3 4 0). right. lra. Defined.

(** ** The direction solve: where it fails *)

Lemma off_axis (x y : R) : ~ (x = 0 /\ y = 0) -> 0 < x * x + y * y.
Proof.
  intros H. destruct (Req_dec_T x 0) as [Hx | Hx].
  - destruct (Req_dec_T y 0) as [Hy | Hy]; [tauto | nra].
  - nra.
Qed.

(** Off the axis and outside the disc, the direction matrix of the script
    has a positive determinant. *)
Lemma direction_matrix_regular (a x0 y0 z0 : R) :
  0 < x0 * x0 + y0 * y0 ->
  z0 <> 0 \/ a * a < x0 * x0 + y0 * y0 ->
  0 < det3 (Star.mat a (x0, y0, z0)).
Proof.
  intros Hrho Hout.
  destruct (conversion_facts a x0 y0 z0 Hout) as (Hr0 & Hcos & Hsin0 & Hk2).
  unfold Star.mat, Star.x0, Star.y0, Star.z0.
  rewrite det3_direction_matrix.
  set (r0 := Star.r0 a (x0, y0, z0)) in *.
  set (theta0 := Star.theta0 a (x0, y0, z0)) in *.
  assert (Hsin : 0 < sin theta0).
  { destruct Hsin0 as [H | H]; [exact H |]. rewrite <- H in Hk2. lra. }
  rewrite tan_quarter_turn_back by lra.
  rewrite <- Hcos.
  set (s := sin theta0) in *. set (c := cos theta0) in *.
  assert (H1 : 0 < r0 / (r0 * r0 + a * a) * (r0 * s)).
  { apply Rmult_lt_0_compat; [| nra].
    apply Rdiv_lt_0_compat; nra. }
  assert (H2 : 0 <= - (- c / s * c)).
  { replace (- (- c / s * c)) with (c * c * / s) by (field; lra).
    apply Rmult_le_pos; [nra |]. left. now apply Rinv_0_lt_compat. }
  apply Rmult_lt_0_compat; lra.
Qed.

Lemma direction_matrix_singular (a z0 : R) : det3 (Star.mat a (0, 0, z0)) = 0.
Proof.
  unfold Star.mat, Star.x0, Star.y0, Star.z0.
  rewrite det3_direction_matrix. ring.
Qed.

(** X4: for a star that starts outside the disc z = 0, x^2 + y^2 <= a^2,
    the initial state is computed unless the star is on the spin axis,
    where the solve for the coordinate velocity raises [LinAlgError];
    nothing catches it, unlike in [minimum_distance]. *)
Theorem star_start_fails_on_axis_only
    (metric : vec6 -> R -> mat4) (a x0 y0 z0 : R) (v_bh : vec3) :
  z0 <> 0 \/ a * a < x0 * x0 + y0 * y0 ->
  let x_bh := (x0, y0, z0) in
  (x0 = 0 /\ y0 = 0 -> Star.orbit0 metric a x_bh v_bh = raise LinAlgError) /\
  (~ (x0 = 0 /\ y0 = 0) ->
   exists _u_dt : vec4,
     Star._u_dt a x_bh v_bh = ret _u_dt /\
     Star.orbit0 metric a x_bh v_bh
     = ret (0, Star.r0 a x_bh, Star.theta0 a x_bh, Star.phi0 x_bh,
            Star.p_r0 metric a x_bh _u_dt, Star.p_theta0 metric a x_bh _u_dt)).
Proof.
  intros Hout x_bh. split.
  - intros [-> ->]. unfold Star.orbit0, Star._u_dt.
    now rewrite solve_singular by apply direction_matrix_singular.
  - intros Hoff. apply off_axis in Hoff.
    pose proof (direction_matrix_regular a x0 y0 z0 Hoff Hout) as Hdet.
    unfold Star.orbit0, Star._u_dt. fold x_bh in Hdet.
    rewrite solve_regular by lra.
    destruct (cramer (Star.mat a x_bh) v_bh) as [[u1 u2] u3].
    rewrite !bind_ret. eexists. split; reflexivity.
Qed.

Lemma star_start_fails_on_axis_only_witness :
  (0 = 0 /\ 0 = 0 ->
   Star.orbit0 Kerr.metric 0.99 (0, 0, 50) (0, 0, 0) = raise LinAlgError) /\
  (~ (0 = 0 /\ 0 = 0) ->
   exists _u_dt : vec4,
     Star._u_dt 0.99 (0, 0, 50) (0, 0, 0) = ret _u_dt /\
     Star.orbit0 Kerr.metric 0.99 (0, 0, 50) (0, 0, 0)
     = ret (0, Star.r0 0.99 (0, 0, 50), Star.theta0 0.99 (0, 0, 50),
            Star.phi0 (0, 0, 50),
            Star.p_r0 Kerr.metric 0.99 (0, 0, 50) _u_dt,
            Star.p_theta0 Kerr.metric 0.99 (0, 0, 50) _u_dt)).
Proof.
  apply (star_start_fails_on_axis_only Kerr.metric 0.99 0 0 50 (0, 0, 0)).
  left. lra.
Defined.

(** X5: inside [minimum_distance] the solve fails for the sky offset
    (0, 0) and for no other: there the matrix is printed, and for every
    other offset the function prints nothing. *)
Theorem ray_solve_fails_on_axis_only
    (metric_l : vec5 -> R -> mat4)
    (odeint_row : vec5 -> list R -> R -> R -> nat -> vec5)
    (x y : R) (pos : vec3) (a : R) (nt : nat) :
  (det3 (Ray.mat x y a) = 0 <-> x = 0 /\ y = 0) /\
  (x = 0 /\ y = 0 ->
   stdout (Ray.minimum_distance metric_l odeint_row x y pos a nt)
   = [PrintMat (Ray.mat x y a)]) /\
  (~ (x = 0 /\ y = 0) ->
   stdout (Ray.minimum_distance metric_l odeint_row x y pos a nt) = []).
Proof.
  assert (Hiff : det3 (Ray.mat x y a) = 0 <-> x = 0 /\ y = 0).
  { split.
    - intros Hdet. destruct (Req_dec_T x 0) as [Hx | Hx];
        destruct (Req_dec_T y 0) as [Hy | Hy]; [tauto | | |];
        exfalso; apply (mat_regular_off_axis x y a); try exact Hdet; nra.
    - intros [-> ->]. apply mat_singular_on_axis. }
  split; [exact Hiff |]. split.
  - intros Hon. apply Hiff in Hon.
    now rewrite (minimum_distance_value _ _ x y pos a nt _ _
                   (solve_direction_singular x y a Hon)).
  - intros Hoff.
    assert (Hdet : det3 (Ray.mat x y a) <> 0) by tauto.
    now rewrite (minimum_distance_value _ _ x y pos a nt _ _
                   (solve_direction_regular x y a Hdet)).
Qed.

(** ** Rays: when the sentinel does not matter *)

Lemma capped_minimum_near (cap d0 : R) (ds : list R) :
  d0 <= cap ->
  fold_right Rmin cap (d0 :: ds) = fold_right Rmin d0 ds.
Proof.
  intros H. cbn [fold_right].
  rewrite <- Rmin_fold_right_init. f_equal. now apply Rmin_left.
Qed.

(** The first sampled point is the start of the ray, when the integrator
    returns the initial state for the first point of its grid. *)
Lemma first_sample_is_start
    (metric_l : vec5 -> R -> mat4)
    (odeint_row : vec5 -> list R -> R -> R -> nat -> vec5)
    (x y a : R) (nt : nat) (_p : vec4) :
  (forall y0 grid a b, odeint_row y0 grid a b 0%nat = y0) ->
  exists rows : list vec3,
    map (matvec3 obs_from_bh) (Ray.ray_xyz metric_l odeint_row x y a nt _p)
    = (x, y, 100000) :: rows /\
    length rows = nt.
Proof.
  intros Hode.
  pose proof (length_ray_xyz metric_l odeint_row x y a nt _p) as Hlen.
  unfold Ray.ray_xyz, Ray.ray, Ray.odeint in *.
  unfold Ray._zeta, linspace in *. rewrite length_map, length_seq in *.
  rewrite Nat.add_1_r in *. cbn [seq map] in *. rewrite Hode.
  eexists. split.
  - f_equal.
    unfold Ray.ray0, Ray.ray0_init, Ray.pos0.
    destruct (Ray._p_cov metric_l x y a _p) as [[[p_t p_r] p_theta] p_phi].
    rewrite xyz0_components. unfold xyz_to_bl.
    rewrite xyz_round_trip_outside_disc by (left; unfold Ray.z_inf; lra).
    rewrite obs_from_bh_matrix. cbn. unfold Ray.z_inf. tuple_eq; lra.
  - now rewrite !length_map, length_seq.
Qed.

(** X6: what the comment on the sentinel ("further than possible start")
    relies on.  When the integrator returns the initial state first and
    the target is within sqrt(2) * 100000 of the start (x, y, 100000) of
    the ray, [minimum_distance] returns the true minimum of the distances
    to the nt + 1 sampled points. *)
Theorem minimum_distance_true_minimum
    (metric_l : vec5 -> R -> mat4)
    (odeint_row : vec5 -> list R -> R -> R -> nat -> vec5)
    (x y : R) (pos : vec3) (a : R) (nt : nat) :
  (forall y0 grid a b, odeint_row y0 grid a b 0%nat = y0) ->
  norm (sub3 (x, y, 100000) pos) <= sqrt 2 * 100000 ->
  exists (out : list line) (_p : vec4) (rows : list vec3),
    Ray.solve_direction x y a = (out, inr _p) /\
    map (matvec3 obs_from_bh) (Ray.ray_xyz metric_l odeint_row x y a nt _p)
    = (x, y, 100000) :: rows /\
    length rows = nt /\
    Ray.minimum_distance metric_l odeint_row x y pos a nt
    = (out, inr (fold_right Rmin (norm (sub3 (x, y, 100000) pos))
                   (map (fun p => norm (sub3 p pos)) rows))).
Proof.
  intros Hode Hnear.
  destruct (solve_direction_returns x y a) as (out & _p & Hs).
  destruct (first_sample_is_start metric_l odeint_row x y a nt _p Hode)
    as (rows & Hrows & Hlen).
  exists out, _p, rows. split; [exact Hs |]. split; [exact Hrows |].
  split; [exact Hlen |].
  rewrite (minimum_distance_value metric_l odeint_row x y pos a nt out _p Hs).
  rewrite closest_capped_minimum.
  rewrite <- (map_map (matvec3 obs_from_bh) (fun p => norm (sub3 p pos))).
  rewrite Hrows. cbn [map]. now rewrite capped_minimum_near.
Qed.

Lemma minimum_distance_true_minimum_witness :
  exists (out : list line) (_p : vec4) (rows : list vec3),
    Ray.solve_direction (-2230) 388 0.99 = (out, inr _p) /\
    map (matvec3 obs_from_bh)
        (Ray.ray_xyz Kerr.metric_l Sample.hold (-2230) 388 0.99 10000 _p)
    = (-2230, 388, 100000) :: rows /\
    length rows = 10000%nat /\
    Ray.minimum_distance Kerr.metric_l Sample.hold (-2230) 388 (0, 0, 0)
      0.99 10000
    = (out, inr (fold_right Rmin (norm (sub3 (-2230, 388, 100000) (0, 0, 0)))
                   (map (fun p => norm (sub3 p (0, 0, 0))) rows))).
Proof.
  apply (minimum_distance_true_minimum Kerr.metric_l Sample.hold
           (-2230) 388 (0, 0, 0) 0.99 10000).
  - reflexivity.
  - rewrite <- sentinel_value. unfold norm, Ray.z_inf. cbn [sub3 dot3].
    apply sqrt_le_1_alt. lra.
Defined.

(** ** The star: when the analysis returns *)

Section AnalysisRuns.

Variable a : R.
Variables maxima minima : list R -> list nat.
Variable orbit : list vec6.

Let imaxs := Orbit.imaxs maxima orbit.
Let imins := Orbit.imins minima orbit.

(** X7: when the detected indices are rows of the trajectory, the analysis
    returns exactly when there are at least two maxima and one minimum of
    p_r; it has then printed the precession it returns and the theoretical
    value, and nothing else.  With two maxima and no minimum it stops at
    the semi-major axis, on the read of element 0 of an empty array. *)
Theorem analysis_returns_iff :
  Forall (fun i => (i < length orbit)%nat) imaxs ->
  Forall (fun i => (i < length orbit)%nat) imins ->
  let run := Orbit.analysis a maxima minima orbit in
  ((exists v, outcome run = inr v)
   <-> (2 <= length imaxs)%nat /\ (1 <= length imins)%nat) /\
  (forall period sma dphase,
      outcome run = inr (period, sma, dphase) ->
      stdout run = [PrintPrecession dphase; PrintTheory Orbit.thdeltaphase]) /\
  ((2 <= length imaxs)%nat -> imins = [] -> run = raise (IndexError 0 0)).
Proof.
  intros Hmax Hmin run. unfold run, Orbit.analysis.
  unfold Orbit.simul_period, Orbit.simul_sma, Orbit.deltaphase.
  fold imaxs imins.
  rewrite (take_in_range (Orbit.t orbit) imaxs 0)
    by (unfold Orbit.t; now rewrite length_map).
  rewrite (take_in_range (Orbit.phase a orbit) imaxs 0)
    by now rewrite length_phase.
  rewrite (take_in_range (Orbit.orbit_orb_x a orbit) imaxs 0)
    by now rewrite length_orbit_orb_x.
  rewrite (take_in_range (Orbit.orbit_orb_x a orbit) imins 0)
    by now rewrite length_orbit_orb_x.
  destruct imaxs as [| i0 [| i1 rest]]; destruct imins as [| j0 jrest];
    cbn [map length]; rewrite ?bind_ret;
    cbn [item nth_error length]; rewrite ?bind_ret, ?bind_raise.
  all: repeat split; try lia; try discriminate.
  all: try (intros [v Hv]; discriminate Hv).
  all: try (intros; exfalso; lia).
  all: try (cbn; intros; discriminate).
  all: try (intros _; eexists; reflexivity).
  all: try (intros period sma dphase Hv; cbn in Hv |- *;
            injection Hv as _ _ <-; reflexivity).
  all: try reflexivity.
  all: match goal with
       | H : exists v, _ |- _ => destruct H as [v Hv]; cbn in Hv; discriminate Hv
       end.
Qed.

End AnalysisRuns.

Lemma analysis_returns_iff_witness :
  let run :=
    Orbit.analysis Config.a Extrema.maxima Extrema.minima Sample.two_turns in
  ((exists v, outcome run = inr v)
   <-> (2 <= length (Orbit.imaxs Extrema.maxima Sample.two_turns))%nat
       /\ (1 <= length (Orbit.imins Extrema.minima Sample.two_turns))%nat) /\
  (forall period sma dphase,
      outcome run = inr (period, sma, dphase) ->
      stdout run = [PrintPrecession dphase; PrintTheory Orbit.thdeltaphase]) /\
  ((2 <= length (Orbit.imaxs Extrema.maxima Sample.two_turns))%nat ->
   Orbit.imins Extrema.minima Sample.two_turns = [] ->
   run = raise (IndexError 0 0)).
Proof.
  apply (analysis_returns_iff Config.a Extrema.maxima Extrema.minima
           Sample.two_turns).
  - apply (maxima_in_range (Orbit.pr Sample.two_turns)).
  - apply (minima_in_range (Orbit.pr Sample.two_turns)).
Defined.

(** ** The periapsis handed to the scan *)

(** X8: [peri_obs] is the observer-frame position of the row at the first
    detected minimum of p_r, the row whose x coordinate in the orbital
    plane [simul_sma] uses; with no detected minimum it raises
    [IndexError] on element 0 of an empty array. *)
Theorem peri_obs_first_minimum
    (a : R) (minima : list R -> list nat) (orbit : list vec6) :
  Forall (fun i => (i < length orbit)%nat) (Orbit.imins minima orbit) ->
  (Orbit.imins minima orbit = [] ->
   Orbit.peri_obs a minima orbit = raise (IndexError 0 0)) /\
  (forall j0 rest,
      Orbit.imins minima orbit = j0 :: rest ->
      Orbit.peri_obs a minima orbit
      = ret (nth j0 (Orbit.orbit_obs a orbit) (0, 0, 0)) /\
      matvec3 orb_from_obs (nth j0 (Orbit.orbit_obs a orbit) (0, 0, 0))
      = nth j0 (Orbit.orbit_orb a orbit) (0, 0, 0)).
Proof.
  intros Hin. unfold Orbit.peri_obs.
  rewrite (take_in_range (Orbit.orbit_obs a orbit) _ (0, 0, 0))
    by (unfold Orbit.orbit_obs, Orbit.orbit_xyz; now rewrite !length_map).
  split.
  - intros ->. reflexivity.
  - intros j0 rest E. rewrite E in *. cbn [map]. rewrite bind_ret.
    split; [reflexivity |].
    assert (Hj : (j0 < length (Orbit.orbit_obs a orbit))%nat).
    { inversion Hin as [| ? ? Hj _]. unfold Orbit.orbit_obs, Orbit.orbit_xyz.
      now rewrite !length_map. }
    unfold Orbit.orbit_orb.
    rewrite (nth_indep (map _ _) (0, 0, 0)
               (matvec3 orb_from_obs (0, 0, 0))) by now rewrite length_map.
    now rewrite map_nth.
Qed.

Lemma peri_obs_first_minimum_witness :
  (Orbit.imins Extrema.minima Sample.one_turn = [] ->
   Orbit.peri_obs Config.a Extrema.minima Sample.one_turn
   = raise (IndexError 0 0)) /\
  (forall j0 rest,
      Orbit.imins Extrema.minima Sample.one_turn = j0 :: rest ->
      Orbit.peri_obs Config.a Extrema.minima Sample.one_turn
      = ret (nth j0 (Orbit.orbit_obs Config.a Sample.one_turn) (0, 0, 0)) /\
      matvec3 orb_from_obs
        (nth j0 (Orbit.orbit_obs Config.a Sample.one_turn) (0, 0, 0))
      = nth j0 (Orbit.orbit_orb Config.a Sample.one_turn) (0, 0, 0)).
Proof.
  apply (peri_obs_first_minimum Config.a Extrema.minima Sample.one_turn).
  apply (minima_in_range (Orbit.pr Sample.one_turn)).
Defined.

(** ** Loops and grids *)

Lemma for_each_app {I S : Type} (l1 l2 : list I) (body : I -> S -> py S)
    (s : S) :
  for_each (l1 ++ l2) body s = bind (for_each l1 body s) (for_each l2 body).
Proof.
  revert s. induction l1 as [| i l1 IH]; intros s; cbn [for_each app].
  - now rewrite bind_ret.
  - destruct (body i s) as [out [e | s']]; cbn [bind]; [reflexivity |].
    rewrite IH. destruct (for_each l1 body s') as [out1 [e | s'']];
      cbn [bind]; [reflexivity |].
    destruct (for_each l2 body s'') as [out2 r]. now rewrite app_assoc.
Qed.

Lemma for_each_raises_at_head {I S : Type} (l : list I) (i : I) (l' : list I)
    (body : I -> S -> py S) (s : S) (out : list line) (e : exn) :
  l = i :: l' -> body i s = (out, inl e) ->
  for_each l body s = (out, inl e).
Proof. intros -> H. cbn [for_each]. now rewrite H. Qed.

(** A loop whose body, under an invariant, prints [out i] and turns the
    state [s] into [step i s]. *)
Lemma for_each_run {I S : Type} (Inv : S -> Prop) (body : I -> S -> py S)
    (out : I -> list line) (step : I -> S -> S) (l : list I) :
  (forall i s, In i l -> Inv s ->
               body i s = (out i, inr (step i s)) /\ Inv (step i s)) ->
  forall s, Inv s ->
    for_each l body s
    = (flat_map out l, inr (fold_left (fun s i => step i s) l s)) /\
    Inv (fold_left (fun s i => step i s) l s).
Proof.
  induction l as [| i l IH]; intros Hbody s Hs; cbn [for_each flat_map fold_left].
  - split; [reflexivity | exact Hs].
  - destruct (Hbody i s (or_introl eq_refl) Hs) as [E Hs'].
    assert (Hbody' : forall i s, In i l -> Inv s ->
                       body i s = (out i, inr (step i s)) /\ Inv (step i s))
      by (intros; apply Hbody; [now right | assumption]).
    destruct (IH Hbody' _ Hs') as [E' Hfin].
    split; [| exact Hfin].
    rewrite E. cbn [bind]. now rewrite E'.
Qed.

Lemma flat_map_single {A B : Type} (f : A -> B) (l : list A) :
  flat_map (fun x => [f x]) l = map f l.
Proof. induction l as [| x l IH]; cbn; [reflexivity | now rewrite IH]. Qed.

Lemma length_update {A : Type} (l : list A) (i : nat) (v : A) :
  length (update l i v) = length l.
Proof.
  revert i. induction l as [| x l IH]; intros [| i]; cbn; try reflexivity.
  now rewrite IH.
Qed.

Lemma nth_update {A : Type} (l : list A) (i k : nat) (v d : A) :
  (i < length l)%nat ->
  nth k (update l i v) d = if Nat.eqb i k then v else nth k l d.
Proof.
  revert i k. induction l as [| x l IH]; intros [| i] [| k] H; cbn in *;
    try lia; try reflexivity.
  apply IH. lia.
Qed.

Lemma length_linspace (start stop : R) (num : nat) :
  length (linspace start stop num) = num.
Proof. unfold linspace. now rewrite length_map, length_seq. Qed.

Lemma nth_linspace (start stop : R) (num i : nat) :
  (i < num)%nat ->
  nth i (linspace start stop num) 0
  = start + INR i * ((stop - start) / INR (num - 1)).
Proof.
  intros H. unfold linspace.
  set (f := fun i : nat => start + INR i * ((stop - start) / INR (num - 1))).
  rewrite (nth_indep _ 0 (f 0%nat)) by now rewrite length_map, length_seq.
  rewrite (map_nth f), seq_nth by exact H. reflexivity.
Qed.

(** Every abscissa of the scan is negative: the scan stays off the axis. *)
Lemma xspace_negative (nx i : nat) :
  (i < nx)%nat -> nth i (Grid.xspace nx) 0 < 0.
Proof.
  intros H. unfold Grid.xspace. rewrite nth_linspace by exact H.
  replace (-2229 - -2231) with 2 by lra.
  destruct (Nat.eq_dec (nx - 1) 0) as [E | E].
  - assert (i = 0%nat) by lia. subst i. cbn. lra.
  - assert (Hpos : 0 < INR (nx - 1)) by (apply lt_0_INR; lia).
    assert (Hle : INR i <= INR (nx - 1)) by (apply le_INR; lia).
    assert (Hi : 0 <= INR i) by apply pos_INR.
    assert (Hfrac : INR i * (2 / INR (nx - 1)) <= 2).
    { replace (INR i * (2 / INR (nx - 1))) with (2 * (INR i / INR (nx - 1)))
        by (field; lra).
      assert (INR i / INR (nx - 1) <= 1).
      { apply (Rmult_le_reg_r (INR (nx - 1))); [exact Hpos |].
        unfold Rdiv. rewrite Rmult_assoc, Rinv_l by lra. lra. }
      lra. }
    lra.
Qed.

Lemma Forall_update {A : Type} (P : A -> Prop) (l : list A) (i : nat) (v : A) :
  Forall P l -> P v -> Forall P (update l i v).
Proof.
  intros Hl Hv. revert i.
  induction Hl as [| x l Hx Hl IH]; intros [| i]; cbn; constructor; auto.
Qed.

Lemma nth_repeat_lt {A : Type} (x d : A) (n k : nat) :
  (k < n)%nat -> nth k (repeat x n) d = x.
Proof.
  revert k. induction n as [| n IH]; intros [| k] H; cbn; try lia;
    [reflexivity | apply IH; lia].
Qed.

Lemma shaped_zeros (nx ny : nat) : Grid.shaped nx ny (zeros ny nx).
Proof.
  unfold Grid.shaped, zeros. split; [apply repeat_length |].
  apply Forall_forall. intros row Hrow. apply repeat_spec in Hrow.
  subst row. apply repeat_length.
Qed.

Lemma at_zeros (nx ny i j : nat) :
  (i < nx)%nat -> (j < ny)%nat -> Grid.at_ (zeros ny nx) i j = 0.
Proof.
  intros Hi Hj. unfold Grid.at_, zeros.
  rewrite (nth_repeat_lt _ _ ny j Hj). now apply nth_repeat_lt.
Qed.

Lemma shaped_row (nx ny : nat) (g : list (list R)) (j : nat) :
  Grid.shaped nx ny g -> (j < ny)%nat -> length (nth j g []) = nx.
Proof.
  intros [Hlen Hrows] Hj. rewrite Forall_forall in Hrows.
  apply Hrows, nth_In. lia.
Qed.

(** [min_dist[j, i] = v] on a grid of the right shape *)
Lemma setitem2_store (nx ny : nat) (g : list (list R)) (i j : nat) (v : R) :
  Grid.shaped nx ny g -> (i < nx)%nat -> (j < ny)%nat ->
  setitem2 g j i v = ret (Grid.store g i j v) /\
  Grid.shaped nx ny (Grid.store g i j v).
Proof.
  intros Hg Hi Hj. pose proof (shaped_row nx ny g j Hg Hj) as Hrow.
  destruct Hg as [Hlen Hrows]. split.
  - unfold setitem2, setitem, Grid.store.
    rewrite (item_in_range g j []) by lia. rewrite bind_ret, Hrow.
    destruct (Nat.ltb_spec i nx) as [_ | H]; [| lia]. rewrite bind_ret.
    destruct (Nat.ltb_spec j (length g)) as [_ | H]; [reflexivity | lia].
  - unfold Grid.store. split; [now rewrite length_update |].
    apply Forall_update; [exact Hrows |]. now rewrite length_update.
Qed.

Lemma at_store (nx ny : nat) (g : list (list R)) (i j i' j' : nat) (v : R) :
  Grid.shaped nx ny g -> (i < nx)%nat -> (j < ny)%nat ->
  Grid.at_ (Grid.store g i j v) i' j'
  = if Nat.eqb i i' && Nat.eqb j j' then v else Grid.at_ g i' j'.
Proof.
  intros Hg Hi Hj. pose proof (shaped_row nx ny g j Hg Hj) as Hrow.
  destruct Hg as [Hlen Hrows]. unfold Grid.at_, Grid.store.
  rewrite nth_update by lia.
  destruct (Nat.eqb_spec j j') as [<- | Hjj].
  - rewrite nth_update by lia. now rewrite andb_true_r.
  - now rewrite andb_false_r.
Qed.

Lemma existsb_eqb_seq (k n : nat) :
  existsb (Nat.eqb k) (seq 0 n) = (k <? n)%nat.
Proof.
  destruct (Nat.ltb_spec k n) as [H | H].
  - apply existsb_exists. exists k. split; [apply in_seq; lia |].
    apply Nat.eqb_refl.
  - destruct (existsb (Nat.eqb k) (seq 0 n)) eqn:E; [| reflexivity].
    apply existsb_exists in E. destruct E as (x & Hx & Ex).
    apply in_seq in Hx. apply Nat.eqb_eq in Ex. lia.
Qed.

(** ** The grid scan, for any density *)

Section ScanRuns.

Variable metric_l : vec5 -> R -> mat4.
Variable odeint_row : vec5 -> list R -> R -> R -> nat -> vec5.
Variable peri_obs : vec3.
Variables nx ny : nat.

Let md (x y : R) : py R :=
  Ray.minimum_distance metric_l odeint_row x y peri_obs Config.a 10000.
Let xs (i : nat) : R := nth i (Grid.xspace nx) 0.
Let ys (j : nat) : R := nth j (Grid.yspace ny) 0.
Let val (i j : nat) : R := Grid.returned (md (xs i) (ys j)) 0.
Let cell := Grid.cell metric_l odeint_row peri_obs nx ny.
Let fill_column (i : nat) (g : list (list R)) : list (list R) :=
  fold_left (fun g j => Grid.store g i j (val i j)) (range nx) g.

Lemma md_returns (x y : R) :
  x < 0 -> md x y = ret (Grid.returned (md x y) 0).
Proof.
  intros Hx. unfold md.
  assert (Hdet : det3 (Ray.mat x y Config.a) <> 0)
    by (apply mat_regular_off_axis; nra).
  rewrite (minimum_distance_value _ _ x y peri_obs Config.a 10000 _ _
             (solve_direction_regular x y Config.a Hdet)).
  reflexivity.
Qed.

Lemma cell_run (i j : nat) (g : list (list R)) :
  (i < nx)%nat -> (j < ny)%nat -> Grid.shaped nx ny g ->
  cell i j g = ([PrintCell i j], inr (Grid.store g i j (val i j))) /\
  Grid.shaped nx ny (Grid.store g i j (val i j)).
Proof.
  intros Hi Hj Hg.
  destruct (setitem2_store nx ny g i j (val i j) Hg Hi Hj) as [Eset Hg'].
  split; [| exact Hg'].
  unfold cell, Grid.cell.
  rewrite (item_in_range (Grid.xspace nx) i 0)
    by (unfold Grid.xspace; now rewrite length_linspace).
  rewrite bind_ret.
  rewrite (item_in_range (Grid.yspace ny) j 0)
    by (unfold Grid.yspace; now rewrite length_linspace).
  rewrite bind_ret.
  fold (xs i) (ys j) (md (xs i) (ys j)).
  rewrite (md_returns (xs i) (ys j)) by now apply xspace_negative.
  rewrite bind_ret. fold (val i j). rewrite Eset, bind_ret. reflexivity.
Qed.

Lemma column_run (i : nat) (g : list (list R)) :
  (i < nx)%nat -> (nx <= ny)%nat -> Grid.shaped nx ny g ->
  for_each (range nx) (fun j g => cell i j g) g
  = (map (PrintCell i) (range nx), inr (fill_column i g)) /\
  Grid.shaped nx ny (fill_column i g).
Proof.
  intros Hi Hle Hg. rewrite <- flat_map_single.
  apply (for_each_run (Grid.shaped nx ny) (fun j g => cell i j g)
           (fun j => [PrintCell i j])
           (fun j g => Grid.store g i j (val i j)));
    [| exact Hg].
  intros j g' Hj Hg'. apply in_seq in Hj. apply cell_run; [exact Hi | lia | exact Hg'].
Qed.

Lemma shaped_fill (i : nat) (l : list nat) (g : list (list R)) :
  (i < nx)%nat -> (forall j, In j l -> (j < ny)%nat) -> Grid.shaped nx ny g ->
  Grid.shaped nx ny (fold_left (fun g j => Grid.store g i j (val i j)) l g).
Proof.
  intros Hi. revert g. induction l as [| j l IH]; intros g Hl Hg;
    cbn [fold_left]; [exact Hg |].
  apply IH; [intros; apply Hl; now right |].
  apply setitem2_store; [exact Hg | exact Hi | apply Hl; now left].
Qed.

Lemma at_fill (i : nat) (l : list nat) (g : list (list R)) (i' j' : nat) :
  (i < nx)%nat -> (forall j, In j l -> (j < ny)%nat) -> Grid.shaped nx ny g ->
  Grid.at_ (fold_left (fun g j => Grid.store g i j (val i j)) l g) i' j'
  = if Nat.eqb i i' && existsb (Nat.eqb j') l then val i j'
    else Grid.at_ g i' j'.
Proof.
  intros Hi. revert g. induction l as [| j l IH]; intros g Hl Hg;
    cbn [fold_left existsb].
  - now rewrite andb_false_r.
  - assert (Hj : (j < ny)%nat) by (apply Hl; now left).
    rewrite IH;
      [| intros; apply Hl; now right
       | now apply setitem2_store].
    rewrite (at_store nx ny g i j i' j' _ Hg Hi Hj).
    rewrite (Nat.eqb_sym j' j).
    destruct (Nat.eqb_spec i i') as [<- | Hii]; cbn [andb orb]; [| reflexivity].
    destruct (Nat.eqb_spec j j') as [<- | Hjj]; cbn [orb]; [| reflexivity].
    now destruct (existsb (Nat.eqb j) l).
Qed.

Lemma at_columns (l : list nat) (g : list (list R)) (i' j' : nat) :
  (nx <= ny)%nat -> (forall i, In i l -> (i < nx)%nat) ->
  Grid.shaped nx ny g ->
  Grid.shaped nx ny (fold_left (fun g i => fill_column i g) l g) /\
  Grid.at_ (fold_left (fun g i => fill_column i g) l g) i' j'
  = if existsb (Nat.eqb i') l && (j' <? nx)%nat then val i' j'
    else Grid.at_ g i' j'.
Proof.
  intros Hle. revert g. induction l as [| i l IH]; intros g Hl Hg;
    cbn [fold_left existsb]; [split; [exact Hg | reflexivity] |].
  assert (Hi : (i < nx)%nat) by (apply Hl; now left).
  assert (Hcol : forall j, In j (range nx) -> (j < ny)%nat)
    by (intros j Hj; apply in_seq in Hj; lia).
  pose proof (shaped_fill i (range nx) g Hi Hcol Hg) as Hg'.
  destruct (IH (fill_column i g) (fun k Hk => Hl k (or_intror Hk)) Hg')
    as [Hfin Eat].
  split; [exact Hfin |]. rewrite Eat. unfold fill_column.
  rewrite (at_fill i (range nx) g i' j' Hi Hcol Hg).
  unfold range. rewrite existsb_eqb_seq, (Nat.eqb_sym i' i).
  destruct (Nat.eqb_spec i i') as [<- | Hii]; cbn [andb orb]; [| reflexivity].
  destruct (j' <? nx)%nat; [| now rewrite andb_false_r].
  now destruct (existsb (Nat.eqb i) l).
Qed.

(** X9: with at least one column and no more columns than rows, the scan
    runs to its end without raising.  It prints 'Closest Ray' with 0 and
    then each cell (i, j) once, column by column; in the grid it leaves,
    [min_dist[j, i]] is what [minimum_distance] returns for the offset
    ([xspace[i]], [yspace[j]]) for i, j < nx, and the rows from nx on, which
    the inner loop never reaches, are still zero. *)
Theorem scan_fills_grid :
  (0 < nx)%nat -> (nx <= ny)%nat ->
  exists g : list (list R),
    Grid.scan metric_l odeint_row peri_obs nx ny
    = (PrintClosest 0
         :: flat_map (fun i => map (PrintCell i) (range nx)) (range nx),
       inr g) /\
    Grid.shaped nx ny g /\
    (forall i j, (i < nx)%nat -> (j < nx)%nat ->
                 md (xs i) (ys j) = ret (Grid.at_ g i j)) /\
    (forall i j, (i < nx)%nat -> (nx <= j < ny)%nat -> Grid.at_ g i j = 0).
Proof.
  intros Hnx Hle.
  assert (Hmin : amin (zeros ny nx) = ret 0).
  { destruct nx as [| nx']; [lia |]. destruct ny as [| ny']; [lia |].
    apply amin_zeros. }
  pose proof (shaped_zeros nx ny) as H0.
  destruct (for_each_run (Grid.shaped nx ny)
              (fun i g => for_each (range nx) (fun j g => cell i j g) g)
              (fun i => map (PrintCell i) (range nx))
              fill_column (range nx)) with (s := zeros ny nx)
    as [Erun _]; [| exact H0 |].
  { intros i g Hi Hg. apply in_seq in Hi. apply column_run; [lia | exact Hle | exact Hg]. }
  destruct (at_columns (range nx) (zeros ny nx) 0 0 Hle) as [Hshape _];
    [intros i Hi; apply in_seq in Hi; lia | exact H0 |].
  eexists. split; [| split; [exact Hshape | split]].
  - unfold Grid.scan. rewrite Hmin, bind_ret. fold cell.
    rewrite Erun. reflexivity.
  - intros i j Hi Hj.
    destruct (at_columns (range nx) (zeros ny nx) i j Hle) as [_ Eat];
      [intros k Hk; apply in_seq in Hk; lia | exact H0 |].
    rewrite Eat. unfold range. rewrite existsb_eqb_seq.
    destruct (Nat.ltb_spec i nx) as [_ | H]; [| lia].
    destruct (Nat.ltb_spec j nx) as [_ | H]; [| lia].
    cbn [andb]. unfold val. apply md_returns.
    now apply xspace_negative.
  - intros i j Hi Hj.
    destruct (at_columns (range nx) (zeros ny nx) i j Hle) as [_ Eat];
      [intros k Hk; apply in_seq in Hk; lia | exact H0 |].
    rewrite Eat.
    destruct (Nat.ltb_spec j nx) as [H | _]; [lia |].
    rewrite andb_false_r. apply at_zeros; lia.
Qed.

(** X10: with more columns than rows the scan raises: the inner loop runs
    j up to nx, and reading [yspace[ny]] is out of bounds.  It has printed
    'Closest Ray' and the ny cells of the first column before. *)
Theorem scan_raises_when_wider :
  (0 < ny)%nat -> (ny < nx)%nat ->
  Grid.scan metric_l odeint_row peri_obs nx ny
  = (PrintClosest 0 :: map (PrintCell 0) (range ny), inl (IndexError ny ny)).
Proof.
  intros Hny Hlt.
  assert (Hmin : amin (zeros ny nx) = ret 0).
  { destruct nx as [| nx']; [lia |]. destruct ny as [| ny']; [lia |].
    apply amin_zeros. }
  pose proof (shaped_zeros nx ny) as H0.
  assert (Hsplit : range nx = range ny ++ ny :: seq (S ny) (nx - S ny)).
  { unfold range. replace nx with (ny + S (nx - S ny))%nat at 1 by lia.
    rewrite seq_app. reflexivity. }
  assert (Hcol : for_each (range nx) (fun j g => cell 0 j g) (zeros ny nx)
                 = (map (PrintCell 0) (range ny), inl (IndexError ny ny))).
  { rewrite Hsplit, for_each_app.
    destruct (for_each_run (Grid.shaped nx ny) (fun j g => cell 0 j g)
                (fun j => [PrintCell 0 j])
                (fun j g => Grid.store g 0 j (val 0 j)) (range ny))
      with (s := zeros ny nx) as [Erun _]; [| exact H0 |].
    { intros j g Hj Hg. apply in_seq in Hj. apply cell_run; [lia | lia | exact Hg]. }
    rewrite Erun, flat_map_single. cbn [bind for_each].
    unfold cell at 1, Grid.cell.
    rewrite (item_in_range (Grid.xspace nx) 0 0)
      by (unfold Grid.xspace; rewrite length_linspace; lia).
    rewrite bind_ret.
    rewrite (item_out_of_range (Grid.yspace ny) ny)
      by (unfold Grid.yspace; now rewrite length_linspace).
    unfold Grid.yspace. rewrite length_linspace. cbn [bind raise].
    now rewrite app_nil_r. }
  assert (Hrange : range nx = 0%nat :: seq 1 (nx - 1)).
  { unfold range. destruct nx as [| nx']; [lia |]. cbn [seq].
    do 2 f_equal. lia. }
  unfold Grid.scan. rewrite Hmin, bind_ret. fold cell.
  rewrite (for_each_raises_at_head _ _ _ _ _ _ _ Hrange Hcol). reflexivity.
Qed.

(** X11: with no column or no row the scan does not start: the minimum of
    the empty grid, taken for the 'Closest Ray' line, raises
    [ValueError]. *)
Theorem scan_raises_when_empty :
  nx = 0%nat \/ ny = 0%nat ->
  Grid.scan metric_l odeint_row peri_obs nx ny = raise ValueError.
Proof.
  intros Hempty.
  assert (Hflat : concat (zeros ny nx) = []).
  { unfold zeros. destruct Hempty as [-> | ->]; [| reflexivity].
    induction ny as [| n IH]; [reflexivity | exact IH]. }
  unfold Grid.scan, amin. rewrite Hflat. reflexivity.
Qed.

End ScanRuns.

(** The scan of the script is the scan for a density of 25 by 25. *)
Lemma ray_scan_is_grid_scan
    (metric_l : vec5 -> R -> mat4)
    (odeint_row : vec5 -> list R -> R -> R -> nat -> vec5)
    (peri_obs : vec3) :
  Ray.scan metric_l odeint_row peri_obs
  = Grid.scan metric_l odeint_row peri_obs Config.nx Config.ny.
Proof. reflexivity. Qed.

Lemma scan_fills_grid_witness :
  exists g : list (list R),
    Ray.scan Kerr.metric_l Sample.hold (0, 0, 0)
    = (PrintClosest 0
         :: flat_map (fun i => map (PrintCell i) (range 25)) (range 25),
       inr g) /\
    Grid.shaped 25 25 g.
Proof.
  destruct (scan_fills_grid Kerr.metric_l Sample.hold (0, 0, 0) 25 25)
    as (g & E & Hshape & _); [lia | lia |].
  exists g. split; [| exact Hshape].
  rewrite ray_scan_is_grid_scan. exact E.
Defined.

Lemma scan_raises_when_wider_witness :
  Grid.scan Kerr.metric_l Sample.hold (0, 0, 0) 3 2
  = ([PrintClosest 0; PrintCell 0 0; PrintCell 0 1], inl (IndexError 2 2)).
Proof.
  apply (scan_raises_when_wider Kerr.metric_l Sample.hold (0, 0, 0) 3 2); lia.
Defined.

Lemma scan_raises_when_empty_witness :
  Grid.scan Kerr.metric_l Sample.hold (0, 0, 0) 0 25 = raise ValueError.
Proof.
  apply (scan_raises_when_empty Kerr.metric_l Sample.hold (0, 0, 0) 0 25).
  now left.
Defined.

(** ** Rays: the returned distance as a bound *)

Lemma capped_minimum_lower (cap : R) (l : list R) (d : R) :
  In d l -> fold_right Rmin cap l <= d.
Proof.
  induction l as [| x l IH]; intros Hd; [contradiction |].
  cbn [fold_right]. destruct Hd as [-> | Hd].
  - apply Rmin_l.
  - pose proof (Rmin_r x (fold_right Rmin cap l)). specialize (IH Hd). lra.
Qed.

Lemma capped_minimum_nonneg (cap : R) (l : list R) :
  0 <= cap -> Forall (fun d => 0 <= d) l -> 0 <= fold_right Rmin cap l.
Proof.
  intros Hcap. induction 1 as [| x l Hx _ IH]; cbn [fold_right]; [exact Hcap |].
  now apply Rmin_glb.
Qed.

(** X12: the distance [minimum_distance] returns is never negative and
    never more than the distance from the target to any sampled point of
    the ray. *)
Theorem minimum_distance_lower_bound
    (metric_l : vec5 -> R -> mat4)
    (odeint_row : vec5 -> list R -> R -> R -> nat -> vec5)
    (x y : R) (pos : vec3) (a : R) (nt : nat) :
  exists (d : R) (_p : vec4),
    outcome (Ray.solve_direction x y a) = inr _p /\
    outcome (Ray.minimum_distance metric_l odeint_row x y pos a nt) = inr d /\
    0 <= d /\
    forall row : vec3,
      In row (Ray.ray_xyz metric_l odeint_row x y a nt _p) ->
      d <= norm (sub3 (matvec3 obs_from_bh row) pos).
Proof.
  destruct (solve_direction_returns x y a) as (out & _p & H).
  rewrite (minimum_distance_value metric_l odeint_row x y pos a nt out _p H).
  rewrite closest_capped_minimum, H.
  eexists. exists _p. split; [reflexivity |]. split; [reflexivity |]. split.
  - apply capped_minimum_nonneg.
    + pose proof (sqrt_pos 2). lra.
    + apply Forall_map, Forall_forall. intros row _. apply sqrt_pos.
  - intros row Hrow. apply capped_minimum_lower.
    now apply (in_map (fun row => norm (sub3 (matvec3 obs_from_bh row) pos))).
Qed.

(** * The analysis as a whole, on the rows of the trajectory *)

(** The entries the analysis reads, in terms of the row they come from. *)
Lemma nth_t (orbit : list vec6) (i : nat) (t r theta phi p_r p_theta : R) :
  nth_error orbit i = Some (t, r, theta, phi, p_r, p_theta) ->
  nth i (Orbit.t orbit) 0 = t.
Proof.
  intros H. apply nth_error_nth. unfold Orbit.t.
  now rewrite nth_error_map, H.
Qed.

Lemma nth_orbit_orb (a : R) (orbit : list vec6) (i : nat)
    (t r theta phi p_r p_theta : R) :
  nth_error orbit i = Some (t, r, theta, phi, p_r, p_theta) ->
  nth i (Orbit.orbit_orb a orbit) (0, 0, 0)
  = matvec3 orb_from_obs
      (matvec3 obs_from_bh
         (sqrt (r * r + a * a) * sin theta * cos phi,
          sqrt (r * r + a * a) * sin theta * sin phi,
          r * cos theta)).
Proof.
  intros H. apply nth_error_nth.
  unfold Orbit.orbit_orb, Orbit.orbit_obs, Orbit.orbit_xyz.
  now rewrite !nth_error_map, H.
Qed.

(** What the analysis returns and prints when at least two maxima and a
    minimum are detected. *)
Lemma analysis_value (a : R) (maxima minima : list R -> list nat)
    (orbit : list vec6) (i0 i1 j0 : nat) (irest jrest : list nat) :
  Orbit.imaxs maxima orbit = i0 :: i1 :: irest ->
  Orbit.imins minima orbit = j0 :: jrest ->
  Forall (fun i => (i < length orbit)%nat) (Orbit.imaxs maxima orbit) ->
  Forall (fun i => (i < length orbit)%nat) (Orbit.imins minima orbit) ->
  let orbit_orb := Orbit.orbit_orb a orbit in
  let dphase :=
    (let '(x, y, _) := nth i1 orbit_orb (0, 0, 0) in arctan2 y x) + PI in
  Orbit.analysis a maxima minima orbit
  = ([PrintPrecession dphase; PrintTheory Orbit.thdeltaphase],
     inr (nth i1 (Orbit.t orbit) 0 - nth i0 (Orbit.t orbit) 0,
          ((let '(x, _, _) := nth j0 orbit_orb (0, 0, 0) in x)
           - (let '(x, _, _) := nth i0 orbit_orb (0, 0, 0) in x)) / 2,
          dphase)).
Proof.
  intros Emax Emin Hmax Hmin orbit_orb dphase.
  destruct (simul_period_deltaphase_value a maxima orbit i0 i1 irest Emax Hmax)
    as [Hperiod Hphase].
  pose proof (simul_sma_value a maxima minima orbit j0 i0 jrest (i1 :: irest)
                Emin Emax Hmin Hmax) as Hsma.
  unfold Orbit.analysis. rewrite Hperiod, Hsma, Hphase. reflexivity.
Qed.

(** C2, as the script behaves: with at least two detected maxima and at
    least one detected minimum of p_r, all of them rows of the trajectory,
    the analysis returns, as the period, t at the second maximum minus t
    at the first and, as the precession per orbit, which it also prints,
    arctan2(y, x) + pi for the position (x, y, _) at the second maximum,
    taken from the Boyer-Lindquist row to Cartesian coordinates, to the
    observer frame and to the orbital plane. *)
Theorem analysis_period_and_precession
    (a : R) (maxima minima : list R -> list nat) (orbit : list vec6)
    (i0 i1 j0 : nat) (irest jrest : list nat)
    (t0 r0 theta0 phi0 pr0 ptheta0 t1 r1 theta1 phi1 pr1 ptheta1 : R) :
  let p_r :=
    map (fun row : vec6 => let '(_, _, _, _, p_r, _) := row in p_r) orbit in
  maxima p_r = i0 :: i1 :: irest ->
  minima p_r = j0 :: jrest ->
  Forall (fun i => (i < length orbit)%nat) (maxima p_r) ->
  Forall (fun i => (i < length orbit)%nat) (minima p_r) ->
  nth_error orbit i0 = Some (t0, r0, theta0, phi0, pr0, ptheta0) ->
  nth_error orbit i1 = Some (t1, r1, theta1, phi1, pr1, ptheta1) ->
  let '(x, y, _) :=
    matvec3 orb_from_obs
      (matvec3 obs_from_bh
         (sqrt (r1 * r1 + a * a) * sin theta1 * cos phi1,
          sqrt (r1 * r1 + a * a) * sin theta1 * sin phi1,
          r1 * cos theta1)) in
  exists sma : R,
    Orbit.analysis a maxima minima orbit
    = ([PrintPrecession (arctan2 y x + PI);
        PrintTheory (6 * PI / (Config.sma * (1 - Config.ecc * Config.ecc)))],
       inr (t1 - t0, sma, arctan2 y x + PI)).
Proof.
  intros p_r Emax Emin Hmax Hmin Hrow0 Hrow1.
  rewrite (analysis_value a maxima minima orbit i0 i1 j0 irest jrest
             Emax Emin Hmax Hmin).
  rewrite (nth_t orbit i0 _ _ _ _ _ _ Hrow0), (nth_t orbit i1 _ _ _ _ _ _ Hrow1).
  rewrite (nth_orbit_orb a orbit i1 _ _ _ _ _ _ Hrow1).
  destruct (matvec3 orb_from_obs _) as [[x y] z].
  eexists. reflexivity.
Qed.

(** The extrema of p_r on the sample trajectories. *)
Lemma orbiting_extrema :
  Extrema.maxima (Orbit.pr Sample.orbiting) = [1%nat; 5%nat] /\
  Extrema.minima (Orbit.pr Sample.orbiting) = [3%nat].
Proof.
  unfold Extrema.maxima, Extrema.minima, Orbit.pr, Sample.orbiting,
    Sample.equatorial.
  cbn [map Extrema.turning andb]. unfold Extrema.rises.
  compare_reals. split; reflexivity.
Qed.

Lemma plateau_extrema :
  Extrema.maxima (Orbit.pr Sample.plateau) = [1%nat; 4%nat] /\
  Extrema.minima (Orbit.pr Sample.plateau) = [].
Proof.
  unfold Extrema.maxima, Extrema.minima, Orbit.pr, Sample.plateau,
    Sample.equatorial.
  cbn [map Extrema.turning andb]. unfold Extrema.rises.
  compare_reals. split; reflexivity.
Qed.

Lemma analysis_period_and_precession_witness :
  let '(x, y, _) :=
    matvec3 orb_from_obs
      (matvec3 obs_from_bh
         (sqrt (16.32 * 16.32 + Config.a * Config.a) * sin (PI / 2)
          * cos (2 * PI + 0.1),
          sqrt (16.32 * 16.32 + Config.a * Config.a) * sin (PI / 2)
          * sin (2 * PI + 0.1),
          16.32 * cos (PI / 2))) in
  exists sma : R,
    Orbit.analysis Config.a Extrema.maxima Extrema.minima Sample.orbiting
    = ([PrintPrecession (arctan2 y x + PI);
        PrintTheory (6 * PI / (Config.sma * (1 - Config.ecc * Config.ecc)))],
       inr (1057 - 55, sma, arctan2 y x + PI)).
Proof.
  apply (analysis_period_and_precession
           Config.a Extrema.maxima Extrema.minima Sample.orbiting
           1 5 3 [] []
           55 16.32 (PI / 2) 0 0.165 0
           1057 16.32 (PI / 2) (2 * PI + 0.1) 0.165 0).
  - apply orbiting_extrema.
  - apply orbiting_extrema.
  - pose proof (proj1 orbiting_extrema) as E. unfold Orbit.pr in E.
    rewrite E. repeat constructor; cbn; lia.
  - pose proof (proj2 orbiting_extrema) as E. unfold Orbit.pr in E.
    rewrite E. repeat constructor; cbn; lia.
  - reflexivity.
  - reflexivity.
Defined.

(** C2, as stated, fails: on a trajectory with two detected maxima of p_r
    and no detected minimum the analysis stops at the semi-major axis, on
    the read of element 0 of an empty array; the precession is neither
    computed nor printed. *)
Lemma no_minimum_no_precession :
  Orbit.imaxs Extrema.maxima Sample.plateau = [1%nat; 4%nat] /\
  Orbit.imins Extrema.minima Sample.plateau = [] /\
  Orbit.analysis Config.a Extrema.maxima Extrema.minima Sample.plateau
  = ([], inl (IndexError 0 0)).
Proof.
  split; [apply plateau_extrema |]. split; [apply plateau_extrema |].
  unfold Orbit.analysis, Orbit.simul_period, Orbit.simul_sma,
    Orbit.imaxs, Orbit.imins.
  rewrite (proj1 plateau_extrema), (proj2 plateau_extrema).
  reflexivity.
Qed.

(** C7, as the script computes it: when the analysis runs to its end (at
    least two detected maxima and one detected minimum of p_r, all of them
    rows of the trajectory), the semi-major axis it returns is half the
    difference between the x coordinate, in the orbital plane, of the
    position at the first minimum and the x coordinate of the position at
    the first maximum. *)
Theorem analysis_sma_half_x_separation
    (a : R) (maxima minima : list R -> list nat) (orbit : list vec6)
    (i0 i1 j0 : nat) (irest jrest : list nat)
    (t_max r_max theta_max phi_max pr_max ptheta_max : R)
    (t_min r_min theta_min phi_min pr_min ptheta_min : R) :
  let p_r :=
    map (fun row : vec6 => let '(_, _, _, _, p_r, _) := row in p_r) orbit in
  maxima p_r = i0 :: i1 :: irest ->
  minima p_r = j0 :: jrest ->
  Forall (fun i => (i < length orbit)%nat) (maxima p_r) ->
  Forall (fun i => (i < length orbit)%nat) (minima p_r) ->
  nth_error orbit i0
  = Some (t_max, r_max, theta_max, phi_max, pr_max, ptheta_max) ->
  nth_error orbit j0
  = Some (t_min, r_min, theta_min, phi_min, pr_min, ptheta_min) ->
  let '(x_min, _, _) :=
    matvec3 orb_from_obs
      (matvec3 obs_from_bh
         (sqrt (r_min * r_min + a * a) * sin theta_min * cos phi_min,
          sqrt (r_min * r_min + a * a) * sin theta_min * sin phi_min,
          r_min * cos theta_min)) in
  let '(x_max, _, _) :=
    matvec3 orb_from_obs
      (matvec3 obs_from_bh
         (sqrt (r_max * r_max + a * a) * sin theta_max * cos phi_max,
          sqrt (r_max * r_max + a * a) * sin theta_max * sin phi_max,
          r_max * cos theta_max)) in
  exists period dphase : R,
    Orbit.analysis a maxima minima orbit
    = ([PrintPrecession dphase;
        PrintTheory (6 * PI / (Config.sma * (1 - Config.ecc * Config.ecc)))],
       inr (period, (x_min - x_max) / 2, dphase)).
Proof.
  intros p_r Emax Emin Hmax Hmin Hrow_max Hrow_min.
  rewrite (analysis_value a maxima minima orbit i0 i1 j0 irest jrest
             Emax Emin Hmax Hmin).
  rewrite (nth_orbit_orb a orbit i0 _ _ _ _ _ _ Hrow_max).
  rewrite (nth_orbit_orb a orbit j0 _ _ _ _ _ _ Hrow_min).
  destruct (matvec3 orb_from_obs
              (matvec3 obs_from_bh
                 (sqrt (r_min * r_min + a * a) * sin theta_min * cos phi_min,
                  sqrt (r_min * r_min + a * a) * sin theta_min * sin phi_min,
                  r_min * cos theta_min))) as [[x_min y_min] z_min].
  destruct (matvec3 orb_from_obs
              (matvec3 obs_from_bh
                 (sqrt (r_max * r_max + a * a) * sin theta_max * cos phi_max,
                  sqrt (r_max * r_max + a * a) * sin theta_max * sin phi_max,
                  r_max * cos theta_max))) as [[x_max y_max] z_max].
  do 2 eexists. reflexivity.
Qed.

Lemma analysis_sma_half_x_separation_witness :
  let '(x_min, _, _) :=
    matvec3 orb_from_obs
      (matvec3 obs_from_bh
         (sqrt (16.32 * 16.32 + Config.a * Config.a) * sin (PI / 2) * cos PI,
          sqrt (16.32 * 16.32 + Config.a * Config.a) * sin (PI / 2) * sin PI,
          16.32 * cos (PI / 2))) in
  let '(x_max, _, _) :=
    matvec3 orb_from_obs
      (matvec3 obs_from_bh
         (sqrt (16.32 * 16.32 + Config.a * Config.a) * sin (PI / 2) * cos 0,
          sqrt (16.32 * 16.32 + Config.a * Config.a) * sin (PI / 2) * sin 0,
          16.32 * cos (PI / 2))) in
  exists period dphase : R,
    Orbit.analysis Config.a Extrema.maxima Extrema.minima Sample.orbiting
    = ([PrintPrecession dphase;
        PrintTheory (6 * PI / (Config.sma * (1 - Config.ecc * Config.ecc)))],
       inr (period, (x_min - x_max) / 2, dphase)).
Proof.
  apply (analysis_sma_half_x_separation
           Config.a Extrema.maxima Extrema.minima Sample.orbiting
           1 5 3 [] []
           55 16.32 (PI / 2) 0 0.165 0
           947 16.32 (PI / 2) PI (-0.165) 0).
  - apply orbiting_extrema.
  - apply orbiting_extrema.
  - pose proof (proj1 orbiting_extrema) as E. unfold Orbit.pr in E.
    rewrite E. repeat constructor; cbn; lia.
  - pose proof (proj2 orbiting_extrema) as E. unfold Orbit.pr in E.
    rewrite E. repeat constructor; cbn; lia.
  - reflexivity.
  - reflexivity.
Defined.

(** The x axis of the black-hole frame, expressed in the frame of the
    orbit, is a unit vector with a component out of the orbital plane. *)
Lemma matvec3_along_x (m : mat3) (k : R) :
  matvec3 m (k, 0, 0) = scale3 k (matvec3 m (1, 0, 0)).
Proof.
  destruct m as [[[[m00 m01] m02] [[m10 m11] m12]] [[m20 m21] m22]].
  cbn. tuple_eq; ring.
Qed.

Lemma x_axis_in_orbital_plane :
  let '(m_x, m_y, m_z) := matvec3 orb_from_obs (1, 0, 0) in
  m_x * m_x + m_y * m_y + m_z * m_z = 1 /\
  m_z = sin Config.long_asc * sin Config.incl.
Proof.
  pose proof (undone_preserves_dot orb_from_obs (1, 0, 0) (1, 0, 0)
                (undone_transpose _ obs_from_orb_undone)) as Hdot.
  assert (Hz : (let '(_, _, m_z) := matvec3 orb_from_obs (1, 0, 0) in m_z)
               = sin Config.long_asc * sin Config.incl).
  { unfold orb_from_obs, obs_from_orb, R_long, R_incl, R_arg. cbn. ring. }
  destruct (matvec3 orb_from_obs (1, 0, 0)) as [[m_x m_y] m_z].
  cbn [dot3] in Hdot. split; [lra | exact Hz].
Qed.

Lemma sin_long_asc_sin_incl_neg : sin Config.long_asc * sin Config.incl < 0.
Proof.
  pose proof PI_RGT_0 as Hpi.
  assert (H1 : sin Config.long_asc < 0).
  { apply sin_lt_0; unfold Config.long_asc; lra. }
  assert (H2 : 0 < sin Config.incl).
  { apply sin_gt_0; unfold Config.incl; lra. }
  nra.
Qed.

Lemma sqrt_orbiting_radius :
  sqrt (16.32 * 16.32 + Config.a * Config.a) = 16.35.
Proof.
  unfold Config.a.
  replace (16.32 * 16.32 + 0.99 * 0.99) with (16.35 * 16.35) by lra.
  apply sqrt_square. lra.
Qed.

(** C7, as stated, fails: on the sample orbit the positions at the first
    minimum (row 3) and at the first maximum (row 1) of p_r are opposite
    points of the x axis of the black-hole frame, 32.7 apart, so half
    their distance is 16.35; the analysis returns a semi-major axis
    strictly smaller in absolute value, the x axis of the black-hole frame
    not being the x axis of the orbital plane. *)
Lemma analysis_sma_is_not_half_distance :
  let at_min :=
    matvec3 orb_from_obs
      (matvec3 obs_from_bh (bl_to_xyz Config.a (16.32, PI / 2, PI))) in
  let at_max :=
    matvec3 orb_from_obs
      (matvec3 obs_from_bh (bl_to_xyz Config.a (16.32, PI / 2, 0))) in
  Extrema.minima (Orbit.pr Sample.orbiting) = [3%nat] /\
  Extrema.maxima (Orbit.pr Sample.orbiting) = [1%nat; 5%nat] /\
  nth_error Sample.orbiting 3 = Some (947, 16.32, PI / 2, PI, -0.165, 0) /\
  nth_error Sample.orbiting 1 = Some (55, 16.32, PI / 2, 0, 0.165, 0) /\
  norm (sub3 at_min at_max) / 2 = 16.35 /\
  exists period sma dphase : R,
    Orbit.analysis Config.a Extrema.maxima Extrema.minima Sample.orbiting
    = ([PrintPrecession dphase; PrintTheory Orbit.thdeltaphase],
       inr (period, sma, dphase)) /\
    Rabs sma < 16.35.
Proof.
  intros at_min at_max.
  pose proof x_axis_in_orbital_plane as Hm.
  pose proof sin_long_asc_sin_incl_neg as Hneg.
  assert (Emin : at_min = scale3 16.35 (matvec3 orb_from_obs (1, 0, 0))).
  { unfold at_min. cbn [bl_to_xyz].
    rewrite sqrt_orbiting_radius, sin_PI2, cos_PI2, cos_PI, sin_PI.
    rewrite obs_from_bh_matrix, <- matvec3_along_x. cbn [matvec3 dot3].
    apply f_equal. tuple_eq; lra. }
  assert (Emax : at_max = scale3 (- 16.35) (matvec3 orb_from_obs (1, 0, 0))).
  { unfold at_max. cbn [bl_to_xyz].
    rewrite sqrt_orbiting_radius, sin_PI2, cos_PI2, cos_0, sin_0.
    rewrite obs_from_bh_matrix, <- matvec3_along_x. cbn [matvec3 dot3].
    apply f_equal. tuple_eq; lra. }
  split; [apply orbiting_extrema |]. split; [apply orbiting_extrema |].
  split; [reflexivity |]. split; [reflexivity |].
  assert (Hrun :
    Orbit.analysis Config.a Extrema.maxima Extrema.minima Sample.orbiting
    = ([PrintPrecession
          ((let '(x, y, _) :=
              nth 5 (Orbit.orbit_orb Config.a Sample.orbiting) (0, 0, 0)
            in arctan2 y x) + PI);
        PrintTheory Orbit.thdeltaphase],
       inr (nth 5 (Orbit.t Sample.orbiting) 0 - nth 1 (Orbit.t Sample.orbiting) 0,
            ((let '(x, _, _) := at_min in x) - (let '(x, _, _) := at_max in x))
            / 2,
            (let '(x, y, _) :=
               nth 5 (Orbit.orbit_orb Config.a Sample.orbiting) (0, 0, 0)
             in arctan2 y x) + PI))).
  { rewrite (analysis_value Config.a Extrema.maxima Extrema.minima
               Sample.orbiting 1 5 3 [] []
               (proj1 orbiting_extrema) (proj2 orbiting_extrema)).
    - rewrite (nth_orbit_orb Config.a Sample.orbiting 3
                 947 16.32 (PI / 2) PI (-0.165) 0 eq_refl).
      rewrite (nth_orbit_orb Config.a Sample.orbiting 1
                 55 16.32 (PI / 2) 0 0.165 0 eq_refl).
      reflexivity.
    - unfold Orbit.imaxs. rewrite (proj1 orbiting_extrema).
      repeat constructor; cbn; lia.
    - unfold Orbit.imins. rewrite (proj2 orbiting_extrema).
      repeat constructor; cbn; lia. }
  rewrite Hrun, Emin, Emax.
  destruct (matvec3 orb_from_obs (1, 0, 0)) as [[m_x m_y] m_z].
  destruct Hm as [Hunit Hz].
  assert (Hx : m_x * m_x < 1) by nra.
  split.
  - unfold norm. cbn [scale3 sub3 dot3].
    assert (E : forall k l : R,
               (k * m_x - l * m_x) * (k * m_x - l * m_x)
               + (k * m_y - l * m_y) * (k * m_y - l * m_y)
               + (k * m_z - l * m_z) * (k * m_z - l * m_z)
               = (k - l) * (k - l) * (m_x * m_x + m_y * m_y + m_z * m_z))
      by (intros k l; ring).
    rewrite E, Hunit, Rmult_1_r, sqrt_square by lra. lra.
  - do 3 eexists. split; [reflexivity |].
    cbn [scale3]. apply Rabs_def1; nra.
Qed.

(** * What the script computes in binary64 *)

Section Binary64Facts.
Import PrimFloat.
Local Open Scope float_scope.



(** C8, as stated, fails in the arithmetic of the script: the ray from the
    sky offset (-22500, 0) with a = 0 starts at r = 102500, where
    g_tt = -(1 - 2/r) and the metric is diagonal, with the direction
    (0.9756..., 2.1415...e-06, 0) in (r, theta, phi); it is launched with
    E = 0.9999999999999999. *)
Lemma ray_energy_rounds :
  let r := 102500 in
  let metric0 : Binary64.mat4 :=
    ((- (1 - 2 / r), 0, 0, 0),
     (0, 1 / (1 - 2 / r), 0, 0),
     (0, 0, r * r, 0),
     (0, 0, 0, 22500 * 22500)) in
  let _p : Binary64.vec4 :=
    (0, 0.975609756097561, 2.1415823914336742e-06, 0) in
  Binary64.r0 0 (22500, 0, -100000) = r /\
  Binary64.E metric0 _p = 0.9999999999999999 /\
  PrimFloat.eqb (Binary64.E metric0 _p) 1 = false.
Proof. vm_compute. repeat split; reflexivity. Qed.

End Binary64Facts.
